(** * A shallow embedding of the Logstash client (TouchtechAB/logstash)

    The repository holds two live copies of one logger: the TypeScript
    source [src/index.ts] (module [TS] below) and a plain JavaScript file
    (module [JS] below).  Both build an event from a log call, hand it to a
    p-queue dispatch queue, and echo the message on the local console; the
    queue later posts the event with an axios client wrapped by axios-retry.

    The embedding keeps the data the code manipulates: JavaScript values
    (with property order, because [JSON.stringify] shows it), the instance
    fields written by the constructor, the console streams and the HTTP
    wire.  Effects are threaded through an explicit system state. *)

From Stdlib Require Import ZArith List String Ascii Bool Lia.
From Stdlib Require Import DecimalString.
Import ListNotations.

Local Open Scope Z_scope.
Local Open Scope list_scope.
Local Open Scope string_scope.

Set Implicit Arguments.
Set Warnings "-register-all".

(* ------------------------------------------------------------------ *)
(** ** JavaScript values *)

Module JSValue.

(** Plain data as a log call can carry it.  Numbers are the safe
    integers (magnitude below 2^53), strings are sequences of ASCII code
    units, and an object is its list of own enumerable string keyed
    properties in property order. *)
Inductive value : Type :=
| VUndefined
| VNull
| VBool (b : bool)
| VNum (z : Z)
| VStr (s : string)
| VArr (l : list value)
| VObj (o : list (string * value)).

Definition object := list (string * value).

(** ToBoolean, as used by [!x], [x || d], [x ? a : b] and [if (x)]. *)
Definition truthy (v : value) : bool :=
  match v with
  | VUndefined | VNull => false
  | VBool b => b
  | VNum z => negb (z =? 0)%Z
  | VStr s => negb (s =? "")%string
  | VArr _ | VObj _ => true
  end.

(** [a || d] *)
Definition js_or (a d : value) : value := if truthy a then a else d.

(** [v === true] *)
Definition strict_eq_true (v : value) : bool :=
  match v with
  | VBool true => true
  | _ => false
  end.

Definition dec_of_N (n : N) : string := NilZero.string_of_uint (N.to_uint n).
Definition dec_of_Z (z : Z) : string := NilZero.string_of_int (Z.to_int z).

(** A property key is an array index when it is the canonical decimal form
    of an integer below 2^32 - 1; such keys are listed first, in ascending
    order, by every property enumeration. *)
Definition array_index (k : string) : option N :=
  match NilZero.uint_of_string k with
  | Some u =>
      let n := N.of_uint u in
      if ((dec_of_N n =? k)%string && (n <? 4294967295)%N)%bool
      then Some n else None
  | None => None
  end.

Fixpoint obj_get (k : string) (o : object) : option value :=
  match o with
  | [] => None
  | (k', v) :: r => if (k' =? k)%string then Some v else obj_get k r
  end.

Definition obj_has (k : string) (o : object) : bool :=
  match obj_get k o with Some _ => true | None => false end.

(** Overwrite the value of an existing property; its position stays. *)
Fixpoint obj_replace (k : string) (v : value) (o : object) : object :=
  match o with
  | [] => []
  | (k', v') :: r =>
      if (k' =? k)%string then (k, v) :: r else (k', v') :: obj_replace k v r
  end.

(** Place a new array-index key after the smaller indices. *)
Fixpoint obj_insert_index (n : N) (k : string) (v : value) (o : object)
  : object :=
  match o with
  | [] => [(k, v)]
  | (k', v') :: r =>
      match array_index k' with
      | Some n' =>
          if (n' <? n)%N then (k', v') :: obj_insert_index n k v r
          else (k, v) :: o
      | None => (k, v) :: o
      end
  end.

(** [o[k] = v] on an ordinary object. *)
Definition obj_set (k : string) (v : value) (o : object) : object :=
  if obj_has k o then obj_replace k v o
  else match array_index k with
       | Some n => obj_insert_index n k v o
       | None => (o ++ [(k, v)])%list
       end.

Fixpoint chars_from (i : N) (s : string) : object :=
  match s with
  | EmptyString => []
  | String c r => (dec_of_N i, VStr (String c "")) :: chars_from (N.succ i) r
  end.

Fixpoint elems_from (i : N) (l : list value) : object :=
  match l with
  | [] => []
  | x :: r => (dec_of_N i, x) :: elems_from (N.succ i) r
  end.

(** The own enumerable properties that an object spread or
    [Object.assign] copies out of a source value. *)
Definition own_enumerable (v : value) : object :=
  match v with
  | VObj o => o
  | VArr l => elems_from 0 l
  | VStr s => chars_from 0 s
  | VUndefined | VNull | VBool _ | VNum _ => []
  end.

(** No key occurs twice, as in every object of the language. *)
Fixpoint distinct_keys (o : object) : bool :=
  match o with
  | [] => true
  | (k, _) :: r => (negb (obj_has k r) && distinct_keys r)%bool
  end.

(** Copy every property of [src] onto [target], in the order of [src]. *)
Definition copy_properties (target : object) (src : value) : object :=
  fold_left (fun acc kv => obj_set (fst kv) (snd kv) acc)
            (own_enumerable src) target.

(** [Object.assign(target, src)] *)
Definition Object_assign (target : object) (src : value) : object :=
  copy_properties target src.

End JSValue.
Export JSValue.

(* ------------------------------------------------------------------ *)
(** ** JSON.stringify on plain data *)

Module JSON.

Definition hex_digit (n : N) : ascii :=
  ascii_of_N (if (n <? 10)%N then 48 + n else 87 + n)%N.

Definition dquote : string := String (ascii_of_N 34) EmptyString.

(** One code unit inside a JSON string literal. *)
Definition quote_char (c : ascii) : string :=
  let n := N_of_ascii c in
  if (n =? 34)%N then "\" ++ dquote
  else if (n =? 92)%N then "\\"
  else if (n =? 8)%N then "\b"
  else if (n =? 12)%N then "\f"
  else if (n =? 10)%N then "\n"
  else if (n =? 13)%N then "\r"
  else if (n =? 9)%N then "\t"
  else if (n <? 32)%N
       then "\u00" ++ String (hex_digit (n / 16)) (String (hex_digit (n mod 16)) "")
  else String c "".

Fixpoint quote_body (s : string) : string :=
  match s with
  | EmptyString => ""
  | String c r => quote_char c ++ quote_body r
  end.

Definition quote (s : string) : string := dquote ++ quote_body s ++ dquote.

(** The serialisation of one value; [None] is JavaScript's [undefined]
    result (the value has no JSON form). *)
Fixpoint serialize (v : value) : option string :=
  match v with
  | VUndefined => None
  | VNull => Some "null"
  | VBool true => Some "true"
  | VBool false => Some "false"
  | VNum z => Some (dec_of_Z z)
  | VStr s => Some (quote s)
  | VArr l =>
      Some ("[" ++ String.concat ","
              ((fix elems (l : list value) : list string :=
                  match l with
                  | [] => []
                  | x :: r =>
                      match serialize x with
                      | Some s => s
                      | None => "null"
                      end :: elems r
                  end) l) ++ "]")
  | VObj o =>
      Some ("{" ++ String.concat ","
              ((fix props (o : list (string * value)) : list string :=
                  match o with
                  | [] => []
                  | (k, x) :: r =>
                      match serialize x with
                      | Some s => (quote k ++ ":" ++ s) :: props r
                      | None => props r
                      end
                  end) o) ++ "}")
  end.

(** [JSON.stringify(v)] *)
Definition stringify (v : value) : option string := serialize v.

(** A value interpolated in a template literal: [undefined] prints as the
    word. *)
Definition interpolate (r : option string) : string :=
  match r with
  | Some s => s
  | None => "undefined"
  end.

End JSON.

(* ------------------------------------------------------------------ *)
(** ** Date: the time value, [toISOString] and the date-time format *)

Module JSDate.

Local Open Scope Z_scope.

Definition msPerDay : Z := 86400000.

(** The largest magnitude of a time value (ECMAScript TimeClip). *)
Definition maxTime : Z := 8640000000000000.

Definition Day (t : Z) : Z := t / msPerDay.
Definition TimeWithinDay (t : Z) : Z := t mod msPerDay.
Definition HourFromTime (t : Z) : Z := (t / 3600000) mod 24.
Definition MinFromTime (t : Z) : Z := (t / 60000) mod 60.
Definition SecFromTime (t : Z) : Z := (t / 1000) mod 60.
Definition msFromTime (t : Z) : Z := t mod 1000.

(** Year, month (1..12) and day of month of a day number counted from
    1970-01-01 in the proleptic Gregorian calendar.  The computation
    works in 400-year eras that start on a first of March. *)
Definition yoe_of_doe (doe : Z) : Z :=
  (doe - doe / 1460 + doe / 36524 - doe / 146096) / 365.

Definition doy_of_doe (doe : Z) : Z :=
  let yoe := yoe_of_doe doe in
  doe - (365 * yoe + yoe / 4 - yoe / 100).

(** The month (1..12) and the day of the month of a day of the year,
    counted from the first of March. *)
Definition mp_of_doy (doy : Z) : Z := (5 * doy + 2) / 153.

Definition month_of_doy (doy : Z) : Z :=
  let mp := mp_of_doy doy in
  if mp <? 10 then mp + 3 else mp - 9.

Definition date_of_doy (doy : Z) : Z :=
  doy - (153 * mp_of_doy doy + 2) / 5 + 1.

Definition month_of_doe (doe : Z) : Z := month_of_doy (doy_of_doe doe).
Definition date_of_doe (doe : Z) : Z := date_of_doy (doy_of_doe doe).

(** Year within the era, counted from January. *)
Definition year_of_doe (doe : Z) : Z :=
  yoe_of_doe doe + (if month_of_doe doe <=? 2 then 1 else 0).

Definition era_of_day (day : Z) : Z := (day + 719468) / 146097.
Definition doe_of_day (day : Z) : Z := (day + 719468) mod 146097.

Definition YearFromDay (day : Z) : Z :=
  year_of_doe (doe_of_day day) + 400 * era_of_day day.
Definition MonthFromDay (day : Z) : Z := month_of_doe (doe_of_day day).
Definition DateFromDay (day : Z) : Z := date_of_doe (doe_of_day day).

Definition digit (d : Z) : ascii := ascii_of_N (48 + Z.to_N d).

(** [n] in [w] decimal digits, zero padded (the low [w] digits). *)
Fixpoint pad (w : nat) (n : Z) : string :=
  match w with
  | O => ""
  | S w' => String (digit ((n / 10 ^ Z.of_nat w') mod 10)) (pad w' n)
  end.

(** Four digits for the years 0 to 9999, otherwise a sign and six. *)
Definition year_string (y : Z) : string :=
  if ((0 <=? y) && (y <=? 9999))%bool then pad 4 y
  else if y <? 0 then "-" ++ pad 6 (- y)
  else "+" ++ pad 6 y.

(** [new Date(t).toISOString()] for a time value [t]. *)
Definition toISOString (t : Z) : string :=
  year_string (YearFromDay (Day t)) ++ "-" ++
  pad 2 (MonthFromDay (Day t)) ++ "-" ++
  pad 2 (DateFromDay (Day t)) ++ "T" ++
  pad 2 (HourFromTime t) ++ ":" ++
  pad 2 (MinFromTime t) ++ ":" ++
  pad 2 (SecFromTime t) ++ "." ++
  pad 3 (msFromTime t) ++ "Z".

(** *** Reading the format back (ISO-8601 as ECMAScript profiles it) *)

Definition is_leap (y : Z) : bool :=
  ((y mod 4 =? 0) && (negb (y mod 100 =? 0) || (y mod 400 =? 0)))%bool.

Definition days_in_month (leap : bool) (m : Z) : Z :=
  if m =? 2 then (if leap then 29 else 28)
  else if ((m =? 4) || (m =? 6) || (m =? 9) || (m =? 11))%bool then 30
  else 31.

Definition DaysInMonth (y m : Z) : Z := days_in_month (is_leap y) m.

(** Days of the year before the first of month [m]. *)
Definition days_before (leap : bool) (m : Z) : Z :=
  let l := if leap then 1 else 0 in
  if m =? 1 then 0
  else if m =? 2 then 31
  else if m =? 3 then 59 + l
  else if m =? 4 then 90 + l
  else if m =? 5 then 120 + l
  else if m =? 6 then 151 + l
  else if m =? 7 then 181 + l
  else if m =? 8 then 212 + l
  else if m =? 9 then 243 + l
  else if m =? 10 then 273 + l
  else if m =? 11 then 304 + l
  else 334 + l.

Definition days_before_month (y m : Z) : Z := days_before (is_leap y) m.

(** ECMAScript DayFromYear: the day number of the first of January. *)
Definition DayFromYear (y : Z) : Z :=
  365 * (y - 1970) + (y - 1969) / 4 - (y - 1901) / 100 + (y - 1601) / 400.

Definition MakeDay (y m d : Z) : Z :=
  DayFromYear y + days_before_month y m + d - 1.

Definition MakeTime (h mi s ms : Z) : Z :=
  h * 3600000 + mi * 60000 + s * 1000 + ms.

Definition MakeDate (day time : Z) : Z := day * msPerDay + time.

Definition digit_value (c : ascii) : option Z :=
  let n := N_of_ascii c in
  if ((48 <=? n) && (n <=? 57))%bool%N then Some (Z.of_N n - 48) else None.

(** Read exactly [w] decimal digits. *)
Fixpoint take_digits (w : nat) (acc : Z) (s : string) : option (Z * string) :=
  match w with
  | O => Some (acc, s)
  | S w' =>
      match s with
      | EmptyString => None
      | String c r =>
          match digit_value c with
          | Some d => take_digits w' (acc * 10 + d) r
          | None => None
          end
      end
  end.

Definition expect (c : ascii) (s : string) : option string :=
  match s with
  | EmptyString => None
  | String c' r => if Ascii.eqb c' c then Some r else None
  end.

Definition take_year (s : string) : option (Z * string) :=
  match s with
  | EmptyString => None
  | String c r =>
      if Ascii.eqb c "+" then take_digits 6 0 r
      else if Ascii.eqb c "-" then
        match take_digits 6 0 r with
        | Some (y, r') => if y =? 0 then None else Some (- y, r')
        | None => None
        end
      else take_digits 4 0 s
  end.

Definition bind {A B} (x : option A) (f : A -> option B) : option B :=
  match x with
  | Some a => f a
  | None => None
  end.

Definition in_range (lo x hi : Z) : bool := ((lo <=? x) && (x <=? hi))%bool.

(** [Date.parse] on the complete UTC form
    [YYYY-MM-DDTHH:mm:ss.sssZ] (or with an expanded year): the time value
    when the text is a valid date and time, [None] otherwise. *)
Definition parse (s : string) : option Z :=
  bind (take_year s) (fun '(y, s) =>
  bind (expect "-" s) (fun s =>
  bind (take_digits 2 0 s) (fun '(m, s) =>
  bind (expect "-" s) (fun s =>
  bind (take_digits 2 0 s) (fun '(d, s) =>
  bind (expect "T" s) (fun s =>
  bind (take_digits 2 0 s) (fun '(h, s) =>
  bind (expect ":" s) (fun s =>
  bind (take_digits 2 0 s) (fun '(mi, s) =>
  bind (expect ":" s) (fun s =>
  bind (take_digits 2 0 s) (fun '(sec, s) =>
  bind (expect "." s) (fun s =>
  bind (take_digits 3 0 s) (fun '(ms, s) =>
  bind (expect "Z" s) (fun s =>
  if negb (s =? "")%string then None
  else if negb (in_range 1 m 12 && in_range 1 d (DaysInMonth y m)
                && in_range 0 h 23 && in_range 0 mi 59
                && in_range 0 sec 59)%bool then None
  else
    let t := MakeDate (MakeDay y m d) (MakeTime h mi sec ms) in
    if in_range (- maxTime) t maxTime then Some t else None)))))))))))))).

(** For a day [doy] of a year that starts in March: its month and day of
    the month form a calendar date, and the days of the calendar year
    before that date are those from the first of March to [doy], or, in
    January and February, those after the 306 days of March to
    December.  [leap] is the leap flag of the year the March belongs to,
    [leap'] that of the following year; a 366th day needs [leap']. *)
Definition doy_ok (leap leap' : bool) (doy : Z) : bool :=
  let m := month_of_doy doy in
  let d := date_of_doy doy in
  (in_range 1 m 12 && (1 <=? d)
   && (if m <=? 2
       then ((d <=? days_in_month leap' m) || ((doy =? 365) && negb leap'))
            && (days_before leap' m + d - 1 =? doy - 306)
       else (d <=? days_in_month leap m)
            && (days_before leap m + d - 1
                =? doy + 59 + (if leap then 1 else 0))))%bool.

(** [p] holds of the [n] integers from [k] on. *)
Fixpoint all_from (n : nat) (k : Z) (p : Z -> bool) : bool :=
  match n with
  | O => true
  | S n' => (p k && all_from n' (k + 1) p)%bool
  end.

(** A string is an ISO-8601 timestamp when it reads back as a time. *)
Definition is_iso8601 (s : string) : bool :=
  match parse s with Some _ => true | None => false end.

End JSDate.

(* ------------------------------------------------------------------ *)
(** ** The host: completions, console, globals, the wire *)

Module Runtime.

Inductive exn : Type :=
| TypeError (message : string)
    (** [throw new TypeError(message)] in the program text *)
| EngineTypeError (access : string)
    (** the TypeError the engine raises for a property access on
        [undefined]; [access] names the expression *).

Inductive completion (A : Type) : Type :=
| Normal (a : A)
| Throw (e : exn).
Arguments Normal {A} a.
Arguments Throw {A} e.

(** The receiver of a function call: [undefined] for a plain call in
    module (strict) code, a new empty object under [new]. *)
Inductive receiver : Type :=
| ThisUndefined
| ThisNew.

(** [console.info], [console.warn], [console.error] *)
Inductive stream : Type :=
| Info
| Warn
| Error.

(** The browser globals, when the host has them. *)
Record Navigator : Type := {
  nav_cookieEnabled : value;
  nav_geolocation : value;
  nav_language : value;
  nav_languages : value;
  nav_onLine : value;
  nav_userAgent : value;
  nav_platform : value;
  nav_vendor : value
}.

Record Location : Type := {
  loc_search : value;
  loc_pathname : value;
  loc_hostname : value;
  loc_protocol : value;
  loc_port : value;
  loc_hash : value;
  loc_href : value
}.

(** What a call reads from the host: the clock (as a time value) and the
    optional globals. *)
Record Env : Type := {
  now : Z;
  navigator : option Navigator;
  location : option Location
}.

Record NavigatorMeta : Type := {
  cookieEnabled : value;
  geoLocation : value;
  language : value;
  languages : value;
  online : value;
  userAgent : value;
  platform : value;
  vendor : value
}.

Record LocationMeta : Type := {
  search : value;
  pathname : value;
  hostname : value;
  protocol : value;
  port : value;
  hash : value;
  href : value
}.

(** The document posted to the endpoint.  The two stamped properties are
    optional in the declared type and are set after the literal is built. *)
Record Event : Type := {
  ev_level : string;
  ev_fields : value;
  ev_message : string;
  ev_timestamp : option string;    (* "@timestamp" *)
  ev_tags : option (list string);  (* "@tags" *)
  ev_navigator : option NavigatorMeta;
  ev_location : option LocationMeta
}.

Record Request : Type := {
  req_url : string;
  req_method : string;
  req_headers : list (string * string);
  req_data : Event
}.

(** What one HTTP attempt meets. *)
Inductive Response : Type :=
| HttpStatus (code : Z)
| NetworkError (message : string).

(** The network decides the fate of the [n]-th attempt of a request. *)
Definition Network := Request -> nat -> Response.

Inductive WireAction : Type :=
| Sent (r : Request)
| Waited (ms : value).

(** Observable effects: console lines and the traffic on the wire, both
    oldest first. *)
Record Sys : Type := {
  console : list (stream * string);
  wire : list WireAction
}.

Definition console_write (st : stream) (line : string) (sys : Sys) : Sys :=
  {| console := console sys ++ [(st, line)]; wire := wire sys |}.

Definition wire_log (a : WireAction) (sys : Sys) : Sys :=
  {| console := console sys; wire := wire sys ++ [a] |}.

(** A settled promise. *)
Record AxiosError : Type := { err_message : string }.

Inductive settled (A : Type) : Type :=
| Resolved (a : A)
| Rejected (e : AxiosError).
Arguments Resolved {A} a.
Arguments Rejected {A} e.

(** [p.catch(handler)] with a handler that returns [undefined]: a
    fulfilled promise passes through, a rejected one runs the handler and
    fulfils with [undefined] ([None]). *)
Definition promise_catch {A} (p : settled A * Sys)
           (handler : AxiosError -> Sys -> Sys) : settled (option A) * Sys :=
  match p with
  | (Resolved a, sys) => (Resolved (Some a), sys)
  | (Rejected e, sys) => (Resolved None, handler e sys)
  end.

End Runtime.
Export Runtime.

(* ------------------------------------------------------------------ *)
(** ** The HTTP client with retries (axios + axios-retry) *)

Module Axios.

(** The options the constructor hands to [axiosRetry]. *)
Record RetryConfig : Type := {
  retries : value;
  cfg_retryDelay : nat -> value   (* called with the retry count *)
}.

(** [axios.create()] followed by [axiosRetry(client, config)]. *)
Record Client : Type := { retry : RetryConfig }.

(** Modelled from the spec: a response counts as a success when its
    status is 2xx; the axios package is a dependency whose code is not in
    the repository. *)
Definition status_ok (code : Z) : bool := ((200 <=? code) && (code <? 300))%bool%Z.

(** Modelled from the spec: the outcome of one HTTP attempt; the axios
    package is a dependency whose code is not in the repository.  A
    request fails on a network error and on a status outside 2xx. *)
Definition attempt (net : Network) (req : Request) (n : nat)
  : settled Z :=
  match net req n with
  | HttpStatus code =>
      if status_ok code then Resolved code
      else Rejected {| err_message :=
                         "Request failed with status code " ++ dec_of_Z code |}
  | NetworkError m => Rejected {| err_message := m |}
  end.

(** Modelled from the spec: the number of retries a [retries] option
    grants; the axios-retry package is a dependency whose code is not in
    the repository. *)
Definition retry_budget (v : value) : nat :=
  match v with
  | VNum z => Z.to_nat z
  | _ => O
  end.

(** Modelled from the spec: the retry loop of axios-retry, a dependency
    whose code is not in the repository.  Every failed attempt is
    followed, while the budget lasts, by a wait of [retryDelay(count)] and
    a new attempt of the same request; the promise settles with the first
    success or with the last failure. *)
Fixpoint send_with_retries (net : Network) (cfg : RetryConfig)
         (req : Request) (budget : nat) (n : nat) (sys : Sys)
  : settled Z * Sys :=
  let sys1 := wire_log (Sent req) sys in
  match attempt net req n with
  | Resolved code => (Resolved code, sys1)
  | Rejected e =>
      match budget with
      | O => (Rejected e, sys1)
      | S b =>
          send_with_retries net cfg req b (S n)
            (wire_log (Waited (cfg_retryDelay cfg (S n))) sys1)
      end
  end.

(** Modelled from the spec: [client(request)] on the client that
    [axiosRetry] was applied to, a dependency whose code is not in the
    repository: the request runs under the retry loop with the budget of
    the [retries] option. *)
Definition call (net : Network) (c : Client) (req : Request) (sys : Sys)
  : settled Z * Sys :=
  send_with_retries net (retry c) req (retry_budget (retries (retry c))) O sys.

End Axios.

(* ------------------------------------------------------------------ *)
(** ** The dispatch queue (p-queue) *)

Module PQueue.

(** The options given to [new PQueue(...)] and the tasks added and not
    yet started.  A task is the closure [() => this._sendEvent(event)],
    kept as the event it captures. *)
Record t : Type := {
  concurrency : value;
  intervalCap : value;
  interval : Z;
  pending : list Event
}.

(** Modelled from the spec: [new PQueue(options)] keeps the options and
    starts empty; the p-queue package is a dependency whose code is not
    in the repository. *)
Definition create (concurrency intervalCap : value) (interval : Z) : t :=
  {| concurrency := concurrency; intervalCap := intervalCap;
     interval := interval; pending := [] |}.

(** Modelled from the spec: [queue.add(task)] of p-queue, a dependency
    whose code is not in the repository: the task joins the end of the
    queue and the call returns at once, without failing; the promise it
    returns is dropped by the caller. *)
Definition add (task : Event) (q : t) : t :=
  {| concurrency := concurrency q; intervalCap := intervalCap q;
     interval := interval q; pending := (pending q ++ [task])%list |}.

End PQueue.

(* ------------------------------------------------------------------ *)
(** ** What both copies share: arguments and the instance *)

Module Logger.

(** The [options] argument; a property that is not given is
    [VUndefined]. *)
Record Options : Type := {
  opt_retryDelay : value;
  opt_concurrency : value;
  opt_maxMessagesPerSecond : value;
  opt_muteConsole : value
}.

(** [{}] *)
Definition empty_options : Options :=
  {| opt_retryDelay := VUndefined; opt_concurrency := VUndefined;
     opt_maxMessagesPerSecond := VUndefined; opt_muteConsole := VUndefined |}.

(** The properties the constructor writes on [this]. *)
Record Instance : Type := {
  url : string;
  tags : list string;
  level : string;
  maxRetries : value;
  retryDelay : value;
  concurrency : value;
  maxMessagesPerSecond : value;
  muteConsole : bool;
  client : Axios.Client;
  queue : PQueue.t
}.

Definition with_queue (self : Instance) (q : PQueue.t) : Instance :=
  {| url := url self; tags := tags self; level := level self;
     maxRetries := maxRetries self; retryDelay := retryDelay self;
     concurrency := concurrency self;
     maxMessagesPerSecond := maxMessagesPerSecond self;
     muteConsole := muteConsole self; client := client self; queue := q |}.

(** The first argument of [error]: an [Error] object or a plain string. *)
Inductive err_arg : Type :=
| ErrorObject (message stack : string)
| PlainMessage (text : string).

(** A default parameter value: used when the argument is [undefined]. *)
Definition default_param {A} (d : A) (arg : option A) : A :=
  match arg with
  | Some a => a
  | None => d
  end.

(** [!url] for a string or missing URL. *)
Definition url_falsy (u : option string) : bool :=
  match u with
  | None => true
  | Some s => (s =? "")%string
  end.

Definition navigator_meta (n : Navigator) : NavigatorMeta :=
  {| cookieEnabled := nav_cookieEnabled n;
     geoLocation := nav_geolocation n;
     language := nav_language n;
     languages := nav_languages n;
     online := nav_onLine n;
     userAgent := nav_userAgent n;
     platform := nav_platform n;
     vendor := nav_vendor n |}.

Definition location_meta (l : Location) : LocationMeta :=
  {| search := loc_search l;
     pathname := loc_pathname l;
     hostname := loc_hostname l;
     protocol := loc_protocol l;
     port := loc_port l;
     hash := loc_hash l;
     href := loc_href l |}.

(** [event[key] = v] for the properties added after the literal. *)
Definition set_timestamp (ts : string) (e : Event) : Event :=
  {| ev_level := ev_level e; ev_fields := ev_fields e;
     ev_message := ev_message e; ev_timestamp := Some ts;
     ev_tags := ev_tags e; ev_navigator := ev_navigator e;
     ev_location := ev_location e |}.

Definition set_tags (tg : list string) (e : Event) : Event :=
  {| ev_level := ev_level e; ev_fields := ev_fields e;
     ev_message := ev_message e; ev_timestamp := ev_timestamp e;
     ev_tags := Some tg; ev_navigator := ev_navigator e;
     ev_location := ev_location e |}.

Definition set_navigator (n : NavigatorMeta) (e : Event) : Event :=
  {| ev_level := ev_level e; ev_fields := ev_fields e;
     ev_message := ev_message e; ev_timestamp := ev_timestamp e;
     ev_tags := ev_tags e; ev_navigator := Some n;
     ev_location := ev_location e |}.

Definition set_location (l : LocationMeta) (e : Event) : Event :=
  {| ev_level := ev_level e; ev_fields := ev_fields e;
     ev_message := ev_message e; ev_timestamp := ev_timestamp e;
     ev_tags := ev_tags e; ev_navigator := ev_navigator e;
     ev_location := Some l |}.

(** A call of the public logging API. *)
Inductive api_call : Type :=
| CallLog (level message : string) (fields : value)
| CallDebug (message : string) (fields : value)
| CallInfo (message : string) (fields : value)
| CallWarn (message : string) (fields : value)
| CallError (err : err_arg) (fields : value).

End Logger.
Export Logger.

(* ------------------------------------------------------------------ *)
(** ** The TypeScript source, [src/index.ts] *)

Module TS.

(** [function Logstash(url, tags = [], level = "info", options)] *)
Definition Logstash (this : receiver) (url : option string)
           (tags : option (list string)) (level : option string)
           (options : option Options) : completion Instance :=
  let tags := default_param [] tags in
  let level := default_param "info" level in
  match url with
  | None => Throw (TypeError "Invalid URL")
  | Some u =>
    if (u =? "")%string then Throw (TypeError "Invalid URL")
    else
      match this with
      | ThisUndefined => Throw (EngineTypeError "this.url")
      | ThisNew =>
        (* [this.maxRetries] is not defined on the new object *)
        let maxRetries := js_or VUndefined (VNum 10) in
        match options with
        | None => Throw (EngineTypeError "options.retryDelay")
        | Some o =>
          let retryDelay := js_or (opt_retryDelay o) (VNum 10000) in
          let concurrency := js_or (opt_concurrency o) (VNum 25) in
          let maxMessagesPerSecond :=
            js_or (opt_maxMessagesPerSecond o) (VNum 10) in
          let muteConsole := (strict_eq_true (opt_muteConsole o) || false)%bool in
          let client :=
            {| Axios.retry :=
                 {| Axios.retries := maxRetries;
                    Axios.cfg_retryDelay := fun _ => retryDelay |} |} in
          let queue := PQueue.create concurrency maxMessagesPerSecond 1000 in
          Normal {| url := u; tags := tags; level := level;
                    maxRetries := maxRetries; retryDelay := retryDelay;
                    concurrency := concurrency;
                    maxMessagesPerSecond := maxMessagesPerSecond;
                    muteConsole := muteConsole;
                    client := client; queue := queue |}
        end
      end
  end.

(** [function create(url, tags, level, options)]: a plain call of
    [Logstash], whose result is the value the function returns; the
    function has no [return], so a call that completes yields
    [undefined] ([None]). *)
Definition create (url : option string) (tags : option (list string))
           (level : option string) (options : option Options)
  : completion (option Instance) :=
  match Logstash ThisUndefined url tags level options with
  | Normal _ => Normal None
  | Throw e => Throw e
  end.

Definition _sendEvent (net : Network) (self : Instance) (event : Event)
           (sys : Sys) : settled (option Z) * Sys :=
  promise_catch
    (Axios.call net (client self)
       {| req_url := url self;
          req_method := "POST";
          req_headers := [("Content-Type", "application/json")];
          req_data := event |} sys)
    (fun err =>
       console_write Warn
         ("Could not send message to Logstash - [" ++ err_message err ++ "]")).

Definition log (env : Env) (self : Instance) (level message : string)
           (fields : value) (sys : Sys) : completion (Instance * Sys) :=
  let event :=
    {| ev_level := level; ev_fields := fields; ev_message := message;
       ev_timestamp := None; ev_tags := None;
       ev_navigator := None; ev_location := None |} in
  let event := set_timestamp (JSDate.toISOString (now env)) event in
  let event := set_tags (tags self) event in
  let event :=
    match navigator env with
    | Some n => set_navigator (navigator_meta n) event
    | None => event
    end in
  let event :=
    match location env with
    | Some l => set_location (location_meta l) event
    | None => event
    end in
  let self := with_queue self (PQueue.add event (queue self)) in
  if muteConsole self then Normal (self, sys)
  else
    let fieldsStr :=
      if truthy fields
      then " - " ++ JSON.interpolate (JSON.stringify fields) else "" in
    if (level =? "error")%string
    then Normal (self, console_write Error (message ++ fieldsStr) sys)
    else if (level =? "warn")%string
    then Normal (self, console_write Warn (message ++ fieldsStr) sys)
    else Normal (self, console_write Info (message ++ fieldsStr) sys).

Definition debug (env : Env) (self : Instance) (message : string)
           (fields : value) (sys : Sys) : completion (Instance * Sys) :=
  log env self "debug" message fields sys.

Definition info (env : Env) (self : Instance) (message : string)
           (fields : value) (sys : Sys) : completion (Instance * Sys) :=
  log env self "info" message fields sys.

Definition warn (env : Env) (self : Instance) (message : string)
           (fields : value) (sys : Sys) : completion (Instance * Sys) :=
  log env self "warn" message fields sys.

(** [{...fields, stack: s}] *)
Definition merge_stack (fields : value) (s : string) : object :=
  obj_set "stack" (VStr s) (copy_properties [] fields).

Definition error (env : Env) (self : Instance) (err : err_arg)
           (fields : value) (sys : Sys) : completion (Instance * Sys) :=
  match err with
  | ErrorObject message stack =>
      log env self "error" message (VObj (merge_stack fields stack)) sys
  | PlainMessage text => log env self "error" text fields sys
  end.

Definition perform (env : Env) (c : api_call) (self : Instance) (sys : Sys)
  : completion (Instance * Sys) :=
  match c with
  | CallLog l m f => log env self l m f sys
  | CallDebug m f => debug env self m f sys
  | CallInfo m f => info env self m f sys
  | CallWarn m f => warn env self m f sys
  | CallError e f => error env self e f sys
  end.

End TS.

(* ------------------------------------------------------------------ *)
(** ** The plain JavaScript copy *)

Module JS.

(** [function Logstash(url, tags = [], level = "info", options = {})],
    which this file only ever calls with [new]: [this] is the new
    object. *)
Definition Logstash (url : option string)
           (tags : option (list string)) (level : option string)
           (options : option Options) : completion Instance :=
  let tags := default_param [] tags in
  let level := default_param "info" level in
  let options := default_param empty_options options in
  match url with
  | None => Throw (TypeError "Invalid URL")
  | Some u =>
    if (u =? "")%string then Throw (TypeError "Invalid URL")
    else
      (* [this.maxRetries] is not defined on the new object *)
      let maxRetries := js_or VUndefined (VNum 10) in
      let retryDelay := js_or (opt_retryDelay options) (VNum 10000) in
      let concurrency := js_or (opt_concurrency options) (VNum 25) in
      let maxMessagesPerSecond :=
        js_or (opt_maxMessagesPerSecond options) (VNum 10) in
      let muteConsole :=
        (strict_eq_true (opt_muteConsole options) || false)%bool in
      let client :=
        {| Axios.retry :=
             {| Axios.retries := maxRetries;
                Axios.cfg_retryDelay := fun _ => retryDelay |} |} in
      let queue := PQueue.create concurrency maxMessagesPerSecond 1000 in
      Normal {| url := u; tags := tags; level := level;
                maxRetries := maxRetries; retryDelay := retryDelay;
                concurrency := concurrency;
                maxMessagesPerSecond := maxMessagesPerSecond;
                muteConsole := muteConsole;
                client := client; queue := queue |}
  end.

(** [function create(url, tags, level, options)]:
    [return new Logstash(url, tags, level, options)] *)
Definition create (url : option string) (tags : option (list string))
           (level : option string) (options : option Options)
  : completion (option Instance) :=
  match Logstash url tags level options with
  | Normal self => Normal (Some self)
  | Throw e => Throw e
  end.

Definition _sendEvent (net : Network) (self : Instance) (event : Event)
           (sys : Sys) : settled (option Z) * Sys :=
  promise_catch
    (Axios.call net (client self)
       {| req_url := url self;
          req_method := "POST";
          req_headers := [("Content-Type", "application/json")];
          req_data := event |} sys)
    (fun err =>
       console_write Warn
         ("Could not send message to Logstash - [" ++ err_message err ++ "]")).

Definition log (env : Env) (self : Instance) (level message : string)
           (fields : value) (sys : Sys) : completion (Instance * Sys) :=
  let event :=
    {| ev_level := level; ev_fields := fields; ev_message := message;
       ev_timestamp := None; ev_tags := None;
       ev_navigator := None; ev_location := None |} in
  let event := set_timestamp (JSDate.toISOString (now env)) event in
  let event := set_tags (tags self) event in
  let event :=
    match navigator env with
    | Some n => set_navigator (navigator_meta n) event
    | None => event
    end in
  let event :=
    match location env with
    | Some l => set_location (location_meta l) event
    | None => event
    end in
  let self := with_queue self (PQueue.add event (queue self)) in
  if muteConsole self then Normal (self, sys)
  else
    let fieldsStr :=
      if truthy fields
      then " - " ++ JSON.interpolate (JSON.stringify fields) else "" in
    if (level =? "error")%string
    then Normal (self, console_write Error (message ++ fieldsStr) sys)
    else if (level =? "warn")%string
    then Normal (self, console_write Warn (message ++ fieldsStr) sys)
    else Normal (self, console_write Info (message ++ fieldsStr) sys).

Definition debug (env : Env) (self : Instance) (message : string)
           (fields : value) (sys : Sys) : completion (Instance * Sys) :=
  log env self "debug" message fields sys.

Definition info (env : Env) (self : Instance) (message : string)
           (fields : value) (sys : Sys) : completion (Instance * Sys) :=
  log env self "info" message fields sys.

Definition warn (env : Env) (self : Instance) (message : string)
           (fields : value) (sys : Sys) : completion (Instance * Sys) :=
  log env self "warn" message fields sys.

(** [Object.assign({ stack: s }, fields)] *)
Definition merge_stack (fields : value) (s : string) : object :=
  Object_assign [("stack", VStr s)] fields.

Definition error (env : Env) (self : Instance) (err : err_arg)
           (fields : value) (sys : Sys) : completion (Instance * Sys) :=
  match err with
  | ErrorObject message stack =>
      log env self "error" message (VObj (merge_stack fields stack)) sys
  | PlainMessage text => log env self "error" text fields sys
  end.

Definition perform (env : Env) (c : api_call) (self : Instance) (sys : Sys)
  : completion (Instance * Sys) :=
  match c with
  | CallLog l m f => log env self l m f sys
  | CallDebug m f => debug env self m f sys
  | CallInfo m f => info env self m f sys
  | CallWarn m f => warn env self m f sys
  | CallError e f => error env self e f sys
  end.

End JS.

(* ------------------------------------------------------------------ *)
(** ** Running a program against the logger *)

Module Session.

(** What happens over time: the host program calls the API, and the
    queue starts the task at its head under the network conditions of
    that moment.  A started task runs to its end before the next step
    (the sends of concurrent tasks are not interleaved here). *)
Inductive step : Type :=
| Call (env : Env) (c : api_call)
| Dispatch (net : Network).

Record state : Type := {
  self : Instance;
  sys : Sys;
  outcomes : list (settled (option Z))   (* of the tasks run so far *)
}.

Section Run.

Variable sendEvent :
  Network -> Instance -> Event -> Sys -> settled (option Z) * Sys.
Variable perform :
  Env -> api_call -> Instance -> Sys -> completion (Instance * Sys).

Definition run_step (s : step) (st : state) : completion state :=
  match s with
  | Call env c =>
      match perform env c (self st) (sys st) with
      | Normal (self', sys') =>
          Normal {| self := self'; sys := sys'; outcomes := outcomes st |}
      | Throw e => Throw e
      end
  | Dispatch net =>
      let q := queue (self st) in
      match PQueue.pending q with
      | [] => Normal st
      | task :: rest =>
          let q' := {| PQueue.concurrency := PQueue.concurrency q;
                       PQueue.intervalCap := PQueue.intervalCap q;
                       PQueue.interval := PQueue.interval q;
                       PQueue.pending := rest |} in
          let (o, sys') := sendEvent net (self st) task (sys st) in
          Normal {| self := with_queue (self st) q'; sys := sys';
                    outcomes := (outcomes st ++ [o])%list |}
      end
  end.

Fixpoint run (steps : list step) (st : state) : completion state :=
  match steps with
  | [] => Normal st
  | s :: r =>
      match run_step s st with
      | Normal st' => run r st'
      | Throw e => Throw e
      end
  end.

End Run.

Definition is_resolved {A} (o : settled A) : bool :=
  match o with
  | Resolved _ => true
  | Rejected _ => false
  end.

End Session.

(* ------------------------------------------------------------------ *)
(** ** The vocabulary of the specification *)

Module Spec.

(** The [fields] argument as the data model has it: a mapping from string
    keys to values, or absent. *)
Definition of_fields (f : option object) : value :=
  match f with
  | Some o => VObj o
  | None => VUndefined
  end.

(** The local stream of a level: error to the error stream, warn to the
    warning stream, everything else to the informational stream. *)
Definition stream_of_level (level : string) : stream :=
  if (level =? "error")%string then Error
  else if (level =? "warn")%string then Warn
  else Info.

(** The local line: the message, followed by the fields as compact JSON
    when fields are present. *)
Definition local_line (message : string) (f : option object) : string :=
  match f with
  | Some o => message ++ " - " ++ JSON.interpolate (JSON.stringify (VObj o))
  | None => message
  end.

(** Merged fields that hold every caller-supplied entry and the stack
    text of the error. *)
Definition holds_fields_and_stack (fields : value) (stack : string)
           (merged : object) : Prop :=
  (forall k v, obj_get k (own_enumerable fields) = Some v ->
               obj_get k merged = Some v)
  /\ obj_get "stack" merged = Some (VStr stack).

(** The same instance with the console muted or not. *)
Definition set_mute (b : bool) (self : Instance) : Instance :=
  {| url := url self; tags := tags self; level := level self;
     maxRetries := maxRetries self; retryDelay := retryDelay self;
     concurrency := concurrency self;
     maxMessagesPerSecond := maxMessagesPerSecond self;
     muteConsole := b; client := client self; queue := queue self |}.

(** A transport on which every attempt of every request fails. *)
Definition always_fails (net : Network) : Prop :=
  forall req n, exists e, Axios.attempt net req n = Rejected e.

(** The traffic of one delivery that makes [k] retries: an attempt, then
    [k] times a wait of [d] and a further attempt of the same request. *)
Fixpoint retry_trace (req : Request) (d : value) (k : nat) : list WireAction :=
  match k with
  | O => [Sent req]
  | S k' => Sent req :: Waited d :: retry_trace req d k'
  end.

Fixpoint count_sent (l : list WireAction) : nat :=
  match l with
  | [] => O
  | Sent _ :: r => S (count_sent r)
  | Waited _ :: r => count_sent r
  end.

(** The request [_sendEvent] makes for an event. *)
Definition post_of (self : Instance) (event : Event) : Request :=
  {| req_url := url self;
     req_method := "POST";
     req_headers := [("Content-Type", "application/json")];
     req_data := event |}.

End Spec.

(* ------------------------------------------------------------------ *)
(** ** Concrete inputs used to exercise the statements *)

Module Demo.

Definition endpoint : string := "http://logs.example/ingest".

Definition options (mute : value) : Options :=
  {| opt_retryDelay := VNum 500; opt_concurrency := VNum (-1);
     opt_maxMessagesPerSecond := VUndefined; opt_muteConsole := mute |}.

(** [{retryDelay: 10000, concurrency: 25, maxMessagesPerSecond: 10,
    muteConsole: false}] *)
Definition full_options : Options :=
  {| opt_retryDelay := VNum 10000; opt_concurrency := VNum 25;
     opt_maxMessagesPerSecond := VNum 10; opt_muteConsole := VBool false |}.

(** The instance [new Logstash(endpoint, ["app"], undefined, options)]
    leaves behind, with the given mute flag. *)
Definition instance (mute : bool) : Instance :=
  {| url := endpoint; tags := ["app"]; level := "info";
     maxRetries := VNum 10; retryDelay := VNum 500;
     concurrency := VNum (-1); maxMessagesPerSecond := VNum 10;
     muteConsole := mute;
     client := {| Axios.retry :=
                    {| Axios.retries := VNum 10;
                       Axios.cfg_retryDelay := fun _ => VNum 500 |} |};
     queue := PQueue.create (VNum (-1)) (VNum 10) 1000 |}.

(** A server-side host on 2026-11-02T06:34:56.789Z. *)
Definition env : Env :=
  {| now := 1793601296789; navigator := None; location := None |}.

Definition quiet : Sys := {| console := []; wire := [] |}.

(** A network that is down. *)
Definition down : Network := fun _ _ => NetworkError "connect ECONNREFUSED".

(** A network that drops the first two attempts of a request and then
    answers 200. *)
Definition flaky : Network :=
  fun _ n => if (n <? 2)%nat then NetworkError "socket hang up"
             else HttpStatus 200.

(** The event of [log("info", "started", undefined)] on that host. *)
Definition event : Event :=
  {| ev_level := "info"; ev_fields := VUndefined; ev_message := "started";
     ev_timestamp := Some "2026-11-02T06:34:56.789Z";
     ev_tags := Some ["app"]; ev_navigator := None; ev_location := None |}.

(** [new Error("boom")] with a stack text. *)
Definition boom : err_arg := ErrorObject "boom" "Error: boom at main.js:1:1".

End Demo.

(* ------------------------------------------------------------------ *)
(** ** Further vocabulary: what an operation may and may not touch *)

Module Frame.

(** The level an operation of the API logs at. *)
Definition level_of_call (c : api_call) : string :=
  match c with
  | CallLog l _ _ => l
  | CallDebug _ _ => "debug"
  | CallInfo _ _ => "info"
  | CallWarn _ _ => "warn"
  | CallError _ _ => "error"
  end.

(** The message an operation of the API logs. *)
Definition message_of_call (c : api_call) : string :=
  match c with
  | CallLog _ m _ | CallDebug m _ | CallInfo m _ | CallWarn m _ => m
  | CallError (ErrorObject m _) _ => m
  | CallError (PlainMessage t) _ => t
  end.

(** The same instance with another recorded default level. *)
Definition with_level (lv : string) (self : Instance) : Instance :=
  {| url := url self; tags := tags self; level := lv;
     maxRetries := maxRetries self; retryDelay := retryDelay self;
     concurrency := concurrency self;
     maxMessagesPerSecond := maxMessagesPerSecond self;
     muteConsole := muteConsole self; client := client self;
     queue := queue self |}.

(** No code unit of the text is a control character (below U+0020). *)
Fixpoint control_free (s : string) : bool :=
  match s with
  | EmptyString => true
  | String c r => ((32 <=? N_of_ascii c)%N && control_free r)%bool
  end.

(** A console line is a delivery warning when it is on the warning
    stream and starts with the fixed text of [_sendEvent]. *)
Definition is_delivery_warning (l : stream * string) : bool :=
  match fst l with
  | Warn => String.prefix "Could not send message to Logstash - [" (snd l)
  | _ => false
  end.

Fixpoint count_dispatch (steps : list Session.step) : nat :=
  match steps with
  | [] => O
  | Session.Dispatch _ :: r => S (count_dispatch r)
  | Session.Call _ _ :: r => count_dispatch r
  end.

(** No key of the object is an array index. *)
Definition plain_keys (o : object) : bool :=
  forallb (fun kv => match array_index (fst kv) with
                     | Some _ => false
                     | None => true
                     end) o.

(** [x || d] keeps a truthy [x] and puts [d] in place of anything else. *)
Definition or_default (x d : value) : value :=
  match x with
  | VUndefined | VNull | VBool false | VNum 0 => d
  | VStr s => if (s =? "")%string then d else x
  | _ => x
  end.

End Frame.

(* ------------------------------------------------------------------ *)
(** * Properties *)

Unset Implicit Arguments.

(** ** Property lookup after a write *)

Section ObjectFacts.

Variables (k : string) (v : value).

Lemma obj_get_replace_same (o : object) :
  obj_has k o = true -> obj_get k (obj_replace k v o) = Some v.
Proof.
  unfold obj_has.
  induction o as [|[k1 v1] r IH]; simpl; [discriminate|].
  destruct (String.eqb k1 k) eqn:E; simpl.
  - now rewrite String.eqb_refl.
  - rewrite E. exact IH.
Qed.

Lemma obj_get_replace_other (k' : string) (o : object) :
  k' <> k -> obj_get k' (obj_replace k v o) = obj_get k' o.
Proof.
  intros Hne.
  induction o as [|[k1 v1] r IH]; simpl; [reflexivity|].
  destruct (String.eqb k1 k) eqn:E; simpl.
  - apply String.eqb_eq in E; subst k1.
    apply String.eqb_neq in Hne. rewrite String.eqb_sym in Hne.
    now rewrite Hne.
  - now rewrite IH.
Qed.

Lemma obj_get_insert_same (n : N) (o : object) :
  obj_has k o = false -> obj_get k (obj_insert_index n k v o) = Some v.
Proof.
  unfold obj_has.
  induction o as [|[k1 v1] r IH]; simpl.
  - now rewrite String.eqb_refl.
  - destruct (String.eqb k1 k) eqn:E; [discriminate|]. intros Hr.
    destruct (array_index k1) as [n1|]; simpl.
    + destruct (n1 <? n)%N; simpl.
      * rewrite E. now apply IH.
      * now rewrite String.eqb_refl.
    + now rewrite String.eqb_refl.
Qed.

Lemma obj_get_insert_other (k' : string) (n : N) (o : object) :
  k' <> k -> obj_get k' (obj_insert_index n k v o) = obj_get k' o.
Proof.
  intros Hne. apply String.eqb_neq in Hne. rewrite String.eqb_sym in Hne.
  induction o as [|[k1 v1] r IH]; simpl.
  - now rewrite Hne.
  - destruct (array_index k1) as [n1|]; simpl.
    + destruct (n1 <? n)%N; simpl.
      * now rewrite IH.
      * now rewrite Hne.
    + now rewrite Hne.
Qed.

Lemma obj_get_app_same (o : object) :
  obj_has k o = false -> obj_get k (o ++ [(k, v)])%list = Some v.
Proof.
  unfold obj_has.
  induction o as [|[k1 v1] r IH]; simpl.
  - now rewrite String.eqb_refl.
  - destruct (String.eqb k1 k); [discriminate|]. exact IH.
Qed.

Lemma obj_get_app_other (k' : string) (o : object) :
  k' <> k -> obj_get k' (o ++ [(k, v)])%list = obj_get k' o.
Proof.
  intros Hne. apply String.eqb_neq in Hne. rewrite String.eqb_sym in Hne.
  induction o as [|[k1 v1] r IH]; simpl.
  - now rewrite Hne.
  - now rewrite IH.
Qed.

(** Reading back the property just written. *)
Lemma obj_get_set_same (o : object) : obj_get k (obj_set k v o) = Some v.
Proof.
  unfold obj_set. destruct (obj_has k o) eqn:H.
  - now apply obj_get_replace_same.
  - destruct (array_index k).
    + now apply obj_get_insert_same.
    + now apply obj_get_app_same.
Qed.

(** A write leaves every other property alone. *)
Lemma obj_get_set_other (k' : string) (o : object) :
  k' <> k -> obj_get k' (obj_set k v o) = obj_get k' o.
Proof.
  intros Hne. unfold obj_set. destruct (obj_has k o).
  - now apply obj_get_replace_other.
  - destruct (array_index k).
    + now apply obj_get_insert_other.
    + now apply obj_get_app_other.
Qed.

End ObjectFacts.

(** Copying a source with distinct keys: a key of the source reads as in
    the source, any other key as in the target. *)
Lemma obj_get_fold_set (k : string) (l target : object) :
  NoDup (map fst l) ->
  obj_get k (fold_left (fun acc kv => obj_set (fst kv) (snd kv) acc) l target)
  = match obj_get k l with
    | Some v => Some v
    | None => obj_get k target
    end.
Proof.
  revert target.
  induction l as [|[k1 v1] r IH]; intros target Hnd; simpl; [reflexivity|].
  inversion Hnd as [|? ? Hnotin Hnd']; subst.
  rewrite (IH _ Hnd').
  destruct (String.eqb k1 k) eqn:E.
  - apply String.eqb_eq in E; subst k1.
    assert (Hr : obj_get k r = None).
    { clear -Hnotin. induction r as [|[k2 v2] r IH]; simpl; [reflexivity|].
      destruct (String.eqb k2 k) eqn:E2.
      - apply String.eqb_eq in E2; subst. exfalso. apply Hnotin. now left.
      - apply IH. intros Hin. apply Hnotin. now right. }
    rewrite Hr. apply obj_get_set_same.
  - destruct (obj_get k r); [reflexivity|].
    apply obj_get_set_other. intros ->. now rewrite String.eqb_refl in E.
Qed.

(** Two copies of one source agree wherever their targets agreed. *)
Lemma obj_get_fold_set_agree (k : string) (l t1 t2 : object) :
  obj_get k t1 = obj_get k t2 ->
  obj_get k (fold_left (fun acc kv => obj_set (fst kv) (snd kv) acc) l t1)
  = obj_get k (fold_left (fun acc kv => obj_set (fst kv) (snd kv) acc) l t2).
Proof.
  revert t1 t2.
  induction l as [|[k1 v1] r IH]; intros t1 t2 H; simpl; [exact H|].
  apply IH.
  destruct (String.eqb k1 k) eqn:E.
  - apply String.eqb_eq in E; subst. now rewrite !obj_get_set_same.
  - assert (k <> k1) by (intros ->; now rewrite String.eqb_refl in E).
    now rewrite !obj_get_set_other.
Qed.

(** A key the source does not have keeps the value of the target. *)
Lemma obj_get_fold_set_absent (k : string) (l target : object) :
  obj_get k l = None ->
  obj_get k (fold_left (fun acc kv => obj_set (fst kv) (snd kv) acc) l target)
  = obj_get k target.
Proof.
  revert target.
  induction l as [|[k1 v1] r IH]; intros target H; simpl in *; [reflexivity|].
  destruct (String.eqb k1 k) eqn:E; [discriminate|].
  rewrite (IH _ H). apply obj_get_set_other.
  intros ->. now rewrite String.eqb_refl in E.
Qed.

(* ------------------------------------------------------------------ *)
(** ** Construction *)

(** The constructor of the TypeScript source never completes without a
    receiver: whatever the arguments, a plain call throws. *)
Lemma ts_Logstash_plain_call_throws url tags level options :
  exists e, TS.Logstash ThisUndefined url tags level options = Throw e.
Proof.
  unfold TS.Logstash. destruct url as [u|]; [|eauto].
  destruct (String.eqb u ""); eauto.
Qed.

(** So the TypeScript factory never hands out an instance. *)
Lemma ts_create_never_returns url tags level options :
  exists e, TS.create url tags level options = Throw e.
Proof.
  unfold TS.create.
  destruct (ts_Logstash_plain_call_throws url tags level options) as [e ->].
  eauto.
Qed.

(** The JavaScript factory fails exactly on a missing or empty URL, and
    then with the invalid-URL error; otherwise it returns an instance. *)
Lemma js_create_spec url tags level options :
  (url_falsy url = true /\
   JS.create url tags level options = Throw (TypeError "Invalid URL"))
  \/ (url_falsy url = false /\
      exists self, JS.create url tags level options = Normal (Some self)).
Proof.
  unfold JS.create, JS.Logstash, url_falsy.
  destruct url as [u|]; [|now left].
  destruct (String.eqb u ""); [now left|right].
  split; [reflexivity|]. eexists. reflexivity.
Qed.

(** C1 (the code departs from the claim): with the non-empty URL
    "http://logs.example/ingest" and every other argument given, the
    factory of the TypeScript source does not return a logger: it throws
    the engine's TypeError for the write [this.url = url] on an undefined
    receiver, because [create] calls [Logstash] without [new].  The
    JavaScript copy returns an instance on the same arguments. *)
Theorem ts_create_valid_url_throws :
  TS.create (Some Demo.endpoint) (Some ["app"]) (Some "info")
            (Some Demo.full_options)
  = Throw (EngineTypeError "this.url")
  /\ exists self,
       JS.create (Some Demo.endpoint) (Some ["app"]) (Some "info")
                 (Some Demo.full_options)
       = Normal (Some self).
Proof. split; [reflexivity|]. eexists. reflexivity. Qed.

(** Under [new], the constructor of either copy succeeds on a non-empty
    URL and records a mute flag that is the strict comparison of the
    option with [true]. *)
Lemma ts_new_Logstash u tg lv o :
  (u =? "")%string = false ->
  exists self,
    TS.Logstash ThisNew (Some u) tg lv (Some o) = Normal self
    /\ muteConsole self = strict_eq_true (opt_muteConsole o)
    /\ url self = u
    /\ tags self = default_param [] tg
    /\ maxRetries self = VNum 10
    /\ retryDelay self = js_or (opt_retryDelay o) (VNum 10000)
    /\ Axios.retries (Axios.retry (client self)) = maxRetries self
    /\ (forall n, Axios.cfg_retryDelay (Axios.retry (client self)) n
                  = retryDelay self).
Proof.
  intros Hu. unfold TS.Logstash. rewrite Hu.
  eexists. split; [reflexivity|]. cbn.
  rewrite orb_false_r. repeat split; reflexivity.
Qed.

Lemma js_new_Logstash u tg lv options :
  (u =? "")%string = false ->
  exists self,
    JS.Logstash (Some u) tg lv options = Normal self
    /\ muteConsole self
       = strict_eq_true (opt_muteConsole (default_param empty_options options))
    /\ url self = u
    /\ tags self = default_param [] tg.
Proof.
  intros Hu. unfold JS.Logstash. rewrite Hu.
  eexists. split; [reflexivity|]. cbn.
  rewrite orb_false_r. repeat split; reflexivity.
Qed.

(** The constructor hands the queue its two caps as they were computed,
    negative values included, and an interval of 1000 ms. *)
Lemma ts_new_queue_options u tg lv o self :
  TS.Logstash ThisNew (Some u) tg lv (Some o) = Normal self ->
  PQueue.concurrency (queue self) = js_or (opt_concurrency o) (VNum 25)
  /\ PQueue.intervalCap (queue self)
     = js_or (opt_maxMessagesPerSecond o) (VNum 10)
  /\ PQueue.interval (queue self) = 1000
  /\ PQueue.pending (queue self) = []
  /\ concurrency self = PQueue.concurrency (queue self)
  /\ maxMessagesPerSecond self = PQueue.intervalCap (queue self).
Proof.
  unfold TS.Logstash. destruct (String.eqb u ""); [discriminate|].
  intros H. injection H as <-. repeat split.
Qed.

Lemma strict_eq_true_iff (v : value) :
  strict_eq_true v = true <-> v = VBool true.
Proof.
  split.
  - destruct v as [| |[|]| | | |]; simpl; congruence.
  - intros ->. reflexivity.
Qed.

(** ** The local echo *)

(** The two copies of [log] are the same function. *)
Lemma js_log_is_ts_log : JS.log = TS.log.
Proof. reflexivity. Qed.

(** The event a call of [log] builds and enqueues. *)
Lemma ts_log_enqueues env self level message fields sys :
  exists self' sys' ev,
    TS.log env self level message fields sys = Normal (self', sys')
    /\ PQueue.pending (queue self')
       = (PQueue.pending (queue self) ++ [ev])%list
    /\ self' = with_queue self (PQueue.add ev (queue self))
    /\ ev_level ev = level /\ ev_message ev = message
    /\ ev_fields ev = fields
    /\ ev_timestamp ev = Some (JSDate.toISOString (now env))
    /\ ev_tags ev = Some (tags self).
Proof.
  unfold TS.log.
  set (ev := match location env with Some _ => _ | None => _ end).
  assert (Hev : ev_level ev = level /\ ev_message ev = message
                /\ ev_fields ev = fields
                /\ ev_timestamp ev = Some (JSDate.toISOString (now env))
                /\ ev_tags ev = Some (tags self)).
  { subst ev. destruct (location env), (navigator env); cbn; auto. }
  set (self' := with_queue self (PQueue.add ev (queue self))).
  assert (Hq : PQueue.pending (queue self')
               = (PQueue.pending (queue self) ++ [ev])%list) by reflexivity.
  destruct (muteConsole self'); [now eauto 10|].
  destruct (String.eqb level "error"); [now eauto 10|].
  destruct (String.eqb level "warn"); eauto 10.
Qed.

(** An unmuted [log] writes one line, on the stream of the level. *)
Lemma ts_log_unmuted env self level message fields sys :
  muteConsole self = false ->
  exists self',
    TS.log env self level message fields sys
    = Normal (self',
              console_write (Spec.stream_of_level level)
                (message ++
                 (if truthy fields
                  then " - " ++ JSON.interpolate (JSON.stringify fields)
                  else "")) sys).
Proof.
  intros Hm. unfold TS.log, Spec.stream_of_level. cbn. rewrite Hm.
  destruct (String.eqb level "error"); [eauto|].
  destruct (String.eqb level "warn"); eauto.
Qed.

(** A muted [log] leaves the console and the wire as they were. *)
Lemma ts_log_muted env self level message fields sys :
  muteConsole self = true ->
  exists self', TS.log env self level message fields sys = Normal (self', sys).
Proof.
  intros Hm. unfold TS.log. cbn. rewrite Hm. eauto.
Qed.

Lemma string_app_empty_r (s : string) : s ++ "" = s.
Proof. induction s; simpl; congruence. Qed.

(** An object always has a JSON text. *)
Lemma stringify_object (o : object) :
  exists j, JSON.stringify (VObj o) = Some j.
Proof. unfold JSON.stringify. simpl. eauto. Qed.

(** C8: with the console not muted, a call of [log] (in either copy)
    writes exactly one local line: on the error stream for level "error",
    on the warning stream for level "warn", on the informational stream
    for every other level; the line is the message, followed by " - " and
    the compact JSON text of the fields exactly when fields are given. *)
Theorem log_local_line env self level message (f : option object) sys :
  muteConsole self = false ->
  (exists self' sys',
      TS.log env self level message (Spec.of_fields f) sys
      = Normal (self', sys')
      /\ console sys'
         = (console sys
            ++ [(Spec.stream_of_level level, Spec.local_line message f)])%list
      /\ wire sys' = wire sys)
  /\ (exists self' sys',
         JS.log env self level message (Spec.of_fields f) sys
         = Normal (self', sys')
         /\ console sys'
            = (console sys
               ++ [(Spec.stream_of_level level, Spec.local_line message f)])%list
         /\ wire sys' = wire sys)
  /\ match f with
     | Some o => exists j, JSON.stringify (VObj o) = Some j
                           /\ Spec.local_line message f = message ++ " - " ++ j
     | None => Spec.local_line message f = message
     end.
Proof.
  intros Hm.
  assert (H : exists self' sys',
             TS.log env self level message (Spec.of_fields f) sys
             = Normal (self', sys')
             /\ console sys'
                = (console sys
                   ++ [(Spec.stream_of_level level,
                        Spec.local_line message f)])%list
             /\ wire sys' = wire sys).
  { destruct (ts_log_unmuted env self level message (Spec.of_fields f) sys Hm)
      as [self' E].
    exists self'. eexists. split; [exact E|].
    destruct f as [o|]; cbn; [split; reflexivity|].
    rewrite string_app_empty_r. split; reflexivity. }
  split; [exact H|]. split; [rewrite js_log_is_ts_log; exact H|].
  destruct f as [o|]; [|reflexivity].
  destruct (stringify_object o) as [j Hj]. exists j.
  split; [exact Hj|]. unfold Spec.local_line. now rewrite Hj.
Qed.

(** Values that are given but falsy ([0], the empty string, [null],
    [false]) are not mappings; [log] prints the bare message for them. *)
Example log_falsy_fields_bare_message :
  forall f, In f [VNum 0; VStr ""; VNull; VBool false; VUndefined] ->
  exists self',
    TS.log Demo.env (Demo.instance false) "info" "started" f Demo.quiet
    = Normal (self', console_write Info "started" Demo.quiet).
Proof.
  intros f Hf. simpl in Hf.
  repeat (destruct Hf as [<-|Hf]; [eexists; reflexivity|]).
  contradiction.
Qed.

(** [log_local_line] on a warn call with one field. *)
Lemma log_local_line_witness :
  exists self' sys',
    TS.log Demo.env (Demo.instance false) "warn" "disk low"
           (VObj [("free", VNum 3)]) Demo.quiet
    = Normal (self', sys')
    /\ console sys'
       = [(Warn, "disk low - {" ++ JSON.dquote ++ "free" ++ JSON.dquote ++ ":3}")]
    /\ wire sys' = [].
Proof.
  destruct (log_local_line Demo.env (Demo.instance false) "warn" "disk low"
              (Some [("free", VNum 3)]) Demo.quiet eq_refl) as [H _].
  exact H.
Defined.

(** C9: with the console muted, a call of [log] at any level leaves the
    console (and the wire) untouched, and it leaves the queue exactly as
    the same call on the unmuted instance does: one more task, carrying
    the same event. *)
Theorem muted_log_still_enqueues env self level message fields sys :
  muteConsole self = true ->
  exists self' selfu sysu ev,
    TS.log env self level message fields sys = Normal (self', sys)
    /\ TS.log env (Spec.set_mute false self) level message fields sys
       = Normal (selfu, sysu)
    /\ queue self' = queue selfu
    /\ PQueue.pending (queue self')
       = (PQueue.pending (queue self) ++ [ev])%list
    /\ ev_level ev = level /\ ev_message ev = message
    /\ ev_fields ev = fields
    /\ (exists line, console sysu = (console sys ++ [line])%list).
Proof.
  intros Hm.
  destruct (ts_log_enqueues env self level message fields sys)
    as (self' & sys' & ev & E & Hq & Hs & Hl & Hmsg & Hf & _).
  destruct (ts_log_muted env self level message fields sys Hm) as [self1 E1].
  assert (self1 = self' /\ sys = sys') as [-> <-] by (split; congruence).
  destruct (ts_log_unmuted env (Spec.set_mute false self) level message
              fields sys eq_refl) as [selfu Eu].
  destruct (ts_log_enqueues env (Spec.set_mute false self) level message
              fields sys)
    as (selfu' & sysu' & evu & Eu' & _ & Hsu & _).
  exists self', selfu, (console_write (Spec.stream_of_level level)
                          (message ++
                           (if truthy fields
                            then " - " ++ JSON.interpolate (JSON.stringify fields)
                            else "")) sys), ev.
  repeat split; auto.
  - revert E Eu. unfold TS.log. cbn. rewrite Hm.
    intros E Eu. injection E as <-.
    destruct (String.eqb level "error");
      [|destruct (String.eqb level "warn")]; injection Eu as <-; reflexivity.
  - eexists. reflexivity.
Qed.

(** [muted_log_still_enqueues] on a muted error call. *)
Lemma muted_log_still_enqueues_witness :
  exists self' selfu sysu ev,
    TS.log Demo.env (Demo.instance true) "error" "boom" VUndefined Demo.quiet
    = Normal (self', Demo.quiet)
    /\ TS.log Demo.env (Spec.set_mute false (Demo.instance true)) "error"
              "boom" VUndefined Demo.quiet
       = Normal (selfu, sysu)
    /\ queue self' = queue selfu
    /\ PQueue.pending (queue self') = [ev]
    /\ ev_level ev = "error" /\ ev_message ev = "boom"
    /\ ev_fields ev = VUndefined
    /\ (exists line, console sysu = [line]).
Proof.
  exact (muted_log_still_enqueues Demo.env (Demo.instance true) "error" "boom"
           VUndefined Demo.quiet eq_refl).
Defined.

(** C10: construction (under [new], in either copy) turns the console
    off only when the [muteConsole] option is the boolean [true]; for any
    other value of the option, truthy ones included, every call of [log]
    on the new instance writes a local line. *)
Theorem muteConsole_strict_true u tg lv (o : Options) :
  (u =? "")%string = false ->
  (exists self,
      TS.Logstash ThisNew (Some u) tg lv (Some o) = Normal self
      /\ (muteConsole self = true <-> opt_muteConsole o = VBool true)
      /\ (opt_muteConsole o <> VBool true ->
          forall env level message fields sys,
          exists self' sys' line,
            TS.log env self level message fields sys = Normal (self', sys')
            /\ console sys' = (console sys ++ [line])%list))
  /\ (exists self,
         JS.create (Some u) tg lv (Some o) = Normal (Some self)
         /\ (muteConsole self = true <-> opt_muteConsole o = VBool true)
         /\ (opt_muteConsole o <> VBool true ->
             forall env level message fields sys,
             exists self' sys' line,
               JS.log env self level message fields sys = Normal (self', sys')
               /\ console sys' = (console sys ++ [line])%list)).
Proof.
  intros Hu.
  assert (Hlog : forall self, muteConsole self = strict_eq_true (opt_muteConsole o) ->
            opt_muteConsole o <> VBool true ->
            forall env level message fields sys,
            exists self' sys' line,
              TS.log env self level message fields sys = Normal (self', sys')
              /\ console sys' = (console sys ++ [line])%list).
  { intros self Hm Hne env level message fields sys.
    assert (Hf : muteConsole self = false).
    { rewrite Hm. destruct (strict_eq_true (opt_muteConsole o)) eqn:E; auto.
      apply strict_eq_true_iff in E. contradiction. }
    destruct (ts_log_unmuted env self level message fields sys Hf) as [self' E].
    do 3 eexists. split; [exact E|reflexivity]. }
  split.
  - destruct (ts_new_Logstash u tg lv o Hu) as (self & E & Hm & _).
    exists self. split; [exact E|]. split.
    + rewrite Hm. apply strict_eq_true_iff.
    + now apply Hlog.
  - destruct (js_new_Logstash u tg lv (Some o) Hu) as (self & E & Hm & _).
    exists self. split; [unfold JS.create; now rewrite E|]. split.
    + rewrite Hm. apply strict_eq_true_iff.
    + rewrite js_log_is_ts_log. now apply Hlog.
Qed.

(** [muteConsole_strict_true] with the truthy option values ["yes"] and
    [1]: the instances are not muted. *)
Lemma muteConsole_strict_true_witness :
  (exists self,
      TS.Logstash ThisNew (Some Demo.endpoint) None None
                  (Some (Demo.options (VStr "yes"))) = Normal self
      /\ muteConsole self = false)
  /\ (exists self,
         JS.create (Some Demo.endpoint) None None
                   (Some (Demo.options (VNum 1))) = Normal (Some self)
         /\ muteConsole self = false).
Proof.
  split.
  - destruct (muteConsole_strict_true Demo.endpoint None None
                (Demo.options (VStr "yes")) eq_refl)
      as [(self & E & Hiff & _) _].
    exists self. split; [exact E|].
    destruct (muteConsole self); [|reflexivity].
    destruct Hiff as [H _]. specialize (H eq_refl). discriminate H.
  - destruct (muteConsole_strict_true Demo.endpoint None None
                (Demo.options (VNum 1)) eq_refl)
      as [_ (self & E & Hiff & _)].
    exists self. split; [exact E|].
    destruct (muteConsole self); [|reflexivity].
    destruct Hiff as [H _]. specialize (H eq_refl). discriminate H.
Defined.

(** ** Merging the stack of an error into the fields *)

Lemma obj_has_false_not_in (k : string) (o : object) :
  obj_has k o = false -> ~ In k (map fst o).
Proof.
  unfold obj_has.
  induction o as [|[k1 v1] r IH]; simpl; [tauto|].
  destruct (String.eqb k1 k) eqn:E; [discriminate|].
  intros H [->|Hin]; [now rewrite String.eqb_refl in E|now apply IH].
Qed.

Lemma distinct_keys_NoDup (o : object) :
  distinct_keys o = true -> NoDup (map fst o).
Proof.
  induction o as [|[k1 v1] r IH]; simpl; [constructor|].
  intros H. apply andb_prop in H as [H1 H2].
  constructor; [|now apply IH].
  apply obj_has_false_not_in. now destruct (obj_has k1 r).
Qed.

(** The spread of the TypeScript source: the error's stack always wins,
    every other key reads as the caller gave it. *)
Lemma ts_merge_stack_get (fields : value) (stack k : string) :
  distinct_keys (own_enumerable fields) = true ->
  obj_get k (TS.merge_stack fields stack)
  = if (k =? "stack")%string then Some (VStr stack)
    else obj_get k (own_enumerable fields).
Proof.
  intros Hd. unfold TS.merge_stack, copy_properties.
  destruct (String.eqb k "stack") eqn:E.
  - apply String.eqb_eq in E; subst. apply obj_get_set_same.
  - rewrite obj_get_set_other
      by (intros ->; now rewrite String.eqb_refl in E).
    rewrite obj_get_fold_set by now apply distinct_keys_NoDup.
    now destruct (obj_get k (own_enumerable fields)).
Qed.

(** The [Object.assign] of the JavaScript copy: every key of the caller
    reads as the caller gave it, the key "stack" included; the error's
    stack is there only when the caller gave none. *)
Lemma js_merge_stack_get (fields : value) (stack k : string) :
  distinct_keys (own_enumerable fields) = true ->
  obj_get k (JS.merge_stack fields stack)
  = match obj_get k (own_enumerable fields) with
    | Some v => Some v
    | None => if (k =? "stack")%string then Some (VStr stack) else None
    end.
Proof.
  intros Hd. unfold JS.merge_stack, Object_assign, copy_properties.
  rewrite obj_get_fold_set by now apply distinct_keys_NoDup.
  destruct (obj_get k (own_enumerable fields)); [reflexivity|].
  simpl. now rewrite String.eqb_sym.
Qed.

(** What [error] enqueues, in terms of [log]. *)
Lemma ts_error_enqueues env self err fields sys :
  exists self' sys' ev,
    TS.error env self err fields sys = Normal (self', sys')
    /\ PQueue.pending (queue self')
       = (PQueue.pending (queue self) ++ [ev])%list
    /\ ev_level ev = "error"
    /\ ev_message ev
       = match err with ErrorObject m _ => m | PlainMessage t => t end
    /\ ev_fields ev
       = match err with
         | ErrorObject _ st => VObj (TS.merge_stack fields st)
         | PlainMessage _ => fields
         end.
Proof.
  destruct err as [m st|t]; unfold TS.error.
  - destruct (ts_log_enqueues env self "error" m
                (VObj (TS.merge_stack fields st)) sys)
      as (self' & sys' & ev & E & Hq & _ & Hl & Hm & Hf & _).
    exists self', sys', ev. auto.
  - destruct (ts_log_enqueues env self "error" t fields sys)
      as (self' & sys' & ev & E & Hq & _ & Hl & Hm & Hf & _).
    exists self', sys', ev. auto.
Qed.

Lemma js_error_enqueues env self err fields sys :
  exists self' sys' ev,
    JS.error env self err fields sys = Normal (self', sys')
    /\ PQueue.pending (queue self')
       = (PQueue.pending (queue self) ++ [ev])%list
    /\ ev_level ev = "error"
    /\ ev_message ev
       = match err with ErrorObject m _ => m | PlainMessage t => t end
    /\ ev_fields ev
       = match err with
         | ErrorObject _ st => VObj (JS.merge_stack fields st)
         | PlainMessage _ => fields
         end.
Proof.
  destruct err as [m st|t]; unfold JS.error; rewrite js_log_is_ts_log.
  - destruct (ts_log_enqueues env self "error" m
                (VObj (JS.merge_stack fields st)) sys)
      as (self' & sys' & ev & E & Hq & _ & Hl & Hm & Hf & _).
    exists self', sys', ev. auto.
  - destruct (ts_log_enqueues env self "error" t fields sys)
      as (self' & sys' & ev & E & Hq & _ & Hl & Hm & Hf & _).
    exists self', sys', ev. auto.
Qed.

(** C6, as stated, fails when the caller's fields have a "stack" entry of
    their own: for the fields [{stack: "mine"}] and an error whose stack
    is "S", the merged fields of the TypeScript source have lost the
    caller's entry, and those of the JavaScript copy do not hold the
    error's stack. *)
Lemma error_merge_counterexample :
  ~ Spec.holds_fields_and_stack (VObj [("stack", VStr "mine")]) "S"
      (TS.merge_stack (VObj [("stack", VStr "mine")]) "S")
  /\ ~ Spec.holds_fields_and_stack (VObj [("stack", VStr "mine")]) "S"
         (JS.merge_stack (VObj [("stack", VStr "mine")]) "S").
Proof.
  split; intros [H1 H2].
  - specialize (H1 "stack" (VStr "mine") eq_refl).
    vm_compute in H1. discriminate H1.
  - vm_compute in H2. discriminate H2.
Qed.

(** C6 (amended): [error] with an Error object is [log] at level "error"
    with the error's message and the merged fields, and enqueues an event
    carrying them; [error] with a plain string is [log] at level "error"
    with that string and the fields as given.  The merged fields hold
    every caller-supplied entry whose key is not "stack", and a "stack"
    entry: in the TypeScript source always the error's stack, in the
    JavaScript copy the caller's own "stack" entry when there is one and
    the error's stack otherwise.  When the caller supplies no "stack"
    key, both hold every caller-supplied entry and the error's stack. *)
Theorem error_merges_stack env self message stack text fields sys :
  distinct_keys (own_enumerable fields) = true ->
  TS.error env self (ErrorObject message stack) fields sys
  = TS.log env self "error" message (VObj (TS.merge_stack fields stack)) sys
  /\ JS.error env self (ErrorObject message stack) fields sys
     = JS.log env self "error" message (VObj (JS.merge_stack fields stack)) sys
  /\ TS.error env self (PlainMessage text) fields sys
     = TS.log env self "error" text fields sys
  /\ JS.error env self (PlainMessage text) fields sys
     = JS.log env self "error" text fields sys
  /\ (exists self' sys' ev,
         TS.error env self (ErrorObject message stack) fields sys
         = Normal (self', sys')
         /\ PQueue.pending (queue self')
            = (PQueue.pending (queue self) ++ [ev])%list
         /\ ev_message ev = message
         /\ ev_fields ev = VObj (TS.merge_stack fields stack))
  /\ (exists self' sys' ev,
         JS.error env self (ErrorObject message stack) fields sys
         = Normal (self', sys')
         /\ PQueue.pending (queue self')
            = (PQueue.pending (queue self) ++ [ev])%list
         /\ ev_message ev = message
         /\ ev_fields ev = VObj (JS.merge_stack fields stack))
  /\ (forall k v, k <> "stack" ->
        obj_get k (own_enumerable fields) = Some v ->
        obj_get k (TS.merge_stack fields stack) = Some v
        /\ obj_get k (JS.merge_stack fields stack) = Some v)
  /\ obj_get "stack" (TS.merge_stack fields stack) = Some (VStr stack)
  /\ obj_get "stack" (JS.merge_stack fields stack)
     = match obj_get "stack" (own_enumerable fields) with
       | Some v => Some v
       | None => Some (VStr stack)
       end
  /\ (obj_get "stack" (own_enumerable fields) = None ->
      Spec.holds_fields_and_stack fields stack (TS.merge_stack fields stack)
      /\ Spec.holds_fields_and_stack fields stack
           (JS.merge_stack fields stack)).
Proof.
  intros Hd.
  assert (Hother : forall k v, k <> "stack" ->
            obj_get k (own_enumerable fields) = Some v ->
            obj_get k (TS.merge_stack fields stack) = Some v
            /\ obj_get k (JS.merge_stack fields stack) = Some v).
  { intros k v Hk Hv. apply String.eqb_neq in Hk.
    rewrite ts_merge_stack_get, js_merge_stack_get by assumption.
    now rewrite Hk, Hv. }
  assert (Hts : obj_get "stack" (TS.merge_stack fields stack)
                = Some (VStr stack))
    by now rewrite ts_merge_stack_get.
  assert (Hjs : obj_get "stack" (JS.merge_stack fields stack)
                = match obj_get "stack" (own_enumerable fields) with
                  | Some v => Some v
                  | None => Some (VStr stack)
                  end)
    by now rewrite js_merge_stack_get.
  repeat match goal with |- _ /\ _ => split end;
    try reflexivity; try assumption.
  - destruct (ts_error_enqueues env self (ErrorObject message stack) fields sys)
      as (self' & sys' & ev & E & Hq & _ & Hm & Hf).
    exists self', sys', ev. auto.
  - destruct (js_error_enqueues env self (ErrorObject message stack) fields sys)
      as (self' & sys' & ev & E & Hq & _ & Hm & Hf).
    exists self', sys', ev. auto.
  - intros Hnone.
    assert (Hall : forall k v,
              obj_get k (own_enumerable fields) = Some v -> k <> "stack")
      by (intros k v Hv ->; congruence).
    split; split.
    + intros k v Hv. now apply Hother; [apply (Hall k v)|].
    + exact Hts.
    + intros k v Hv. now apply Hother; [apply (Hall k v)|].
    + now rewrite Hjs, Hnone.
Qed.

(** [error_merges_stack] on [error(new Error("boom"), {extra: 1})] and on
    [error("boom", {extra: 1})]: the merged fields of both copies hold
    [extra: 1] and the stack text, and the plain call passes the fields
    on unchanged. *)
Lemma error_merges_stack_witness :
  (obj_get "extra"
     (TS.merge_stack (VObj [("extra", VNum 1)]) "Error: boom at main.js:1:1")
   = Some (VNum 1)
   /\ obj_get "extra"
        (JS.merge_stack (VObj [("extra", VNum 1)]) "Error: boom at main.js:1:1")
      = Some (VNum 1))
  /\ Spec.holds_fields_and_stack (VObj [("extra", VNum 1)])
       "Error: boom at main.js:1:1"
       (TS.merge_stack (VObj [("extra", VNum 1)]) "Error: boom at main.js:1:1")
  /\ Spec.holds_fields_and_stack (VObj [("extra", VNum 1)])
       "Error: boom at main.js:1:1"
       (JS.merge_stack (VObj [("extra", VNum 1)]) "Error: boom at main.js:1:1")
  /\ TS.error Demo.env (Demo.instance false) (PlainMessage "boom")
              (VObj [("extra", VNum 1)]) Demo.quiet
     = TS.log Demo.env (Demo.instance false) "error" "boom"
              (VObj [("extra", VNum 1)]) Demo.quiet.
Proof.
  destruct (error_merges_stack Demo.env (Demo.instance false) "boom"
              "Error: boom at main.js:1:1" "boom"
              (VObj [("extra", VNum 1)]) Demo.quiet eq_refl)
    as (_ & _ & Hplain & _ & _ & _ & Hother & _ & _ & Hall).
  split; [|split; [|split]].
  - apply Hother; [discriminate|reflexivity].
  - exact (proj1 (Hall eq_refl)).
  - exact (proj2 (Hall eq_refl)).
  - exact Hplain.
Defined.

(** ** The two copies compared *)

Lemma js_sendEvent_is_ts_sendEvent : JS._sendEvent = TS._sendEvent.
Proof. reflexivity. Qed.

(** The two merges read alike at every key but "stack". *)
Lemma merge_stack_agree (fields : value) (stack k : string) :
  k <> "stack" ->
  obj_get k (JS.merge_stack fields stack)
  = obj_get k (TS.merge_stack fields stack).
Proof.
  intros Hk.
  unfold JS.merge_stack, TS.merge_stack, Object_assign, copy_properties.
  rewrite obj_get_set_other by assumption.
  apply obj_get_fold_set_agree.
  assert (E : ("stack" =? k)%string = false)
    by (apply String.eqb_neq; congruence).
  cbn [obj_get]. now rewrite E.
Qed.

(** Without a "stack" key among the caller's fields, both merges carry
    the error's stack. *)
Lemma merge_stack_agree_stack (fields : value) (stack : string) :
  obj_get "stack" (own_enumerable fields) = None ->
  obj_get "stack" (JS.merge_stack fields stack) = Some (VStr stack)
  /\ obj_get "stack" (TS.merge_stack fields stack) = Some (VStr stack).
Proof.
  intros H. split.
  - unfold JS.merge_stack, Object_assign, copy_properties.
    now rewrite obj_get_fold_set_absent.
  - apply obj_get_set_same.
Qed.

(** C5, as stated, fails: on [error(new Error("boom"), {extra: 1})] the two
    copies build different events and write different console lines,
    because the TypeScript source spreads the fields before the stack
    and the JavaScript copy assigns them after it. *)
Lemma copies_differ_counterexample :
  TS.error Demo.env (Demo.instance false) Demo.boom
           (VObj [("extra", VNum 1)]) Demo.quiet
  <> JS.error Demo.env (Demo.instance false) Demo.boom
              (VObj [("extra", VNum 1)]) Demo.quiet
  /\ TS.merge_stack (VObj [("extra", VNum 1)]) "S"
     = [("extra", VNum 1); ("stack", VStr "S")]
  /\ JS.merge_stack (VObj [("extra", VNum 1)]) "S"
     = [("stack", VStr "S"); ("extra", VNum 1)]
  /\ TS.merge_stack (VObj [("stack", VStr "mine")]) "S" = [("stack", VStr "S")]
  /\ JS.merge_stack (VObj [("stack", VStr "mine")]) "S"
     = [("stack", VStr "mine")].
Proof.
  split; [|repeat split; reflexivity].
  intros H. vm_compute in H. discriminate H.
Qed.

(** C5 (amended): on every instance and input the two copies have the
    same [_sendEvent], [log], [debug], [info] and [warn], and the same
    [error] when its first argument is a plain string or when the fields
    have no own properties; under [new] and with options given, their
    constructors build the same instance.  For an Error object with
    fields, the two merged field objects hold the same value at every key
    other than "stack", and at "stack" too when the caller supplied no
    such key. *)
Theorem copies_agree env self sys :
  JS._sendEvent = TS._sendEvent
  /\ (forall level message fields,
         JS.log env self level message fields sys
         = TS.log env self level message fields sys)
  /\ (forall message fields,
         JS.debug env self message fields sys
         = TS.debug env self message fields sys
         /\ JS.info env self message fields sys
            = TS.info env self message fields sys
         /\ JS.warn env self message fields sys
            = TS.warn env self message fields sys)
  /\ (forall text fields,
         JS.error env self (PlainMessage text) fields sys
         = TS.error env self (PlainMessage text) fields sys)
  /\ (forall message stack fields,
         own_enumerable fields = [] ->
         JS.error env self (ErrorObject message stack) fields sys
         = TS.error env self (ErrorObject message stack) fields sys)
  /\ (forall fields stack k,
         k <> "stack" ->
         obj_get k (JS.merge_stack fields stack)
         = obj_get k (TS.merge_stack fields stack))
  /\ (forall fields stack,
         obj_get "stack" (own_enumerable fields) = None ->
         obj_get "stack" (JS.merge_stack fields stack)
         = obj_get "stack" (TS.merge_stack fields stack))
  /\ (forall url tg lv o,
         JS.Logstash url tg lv (Some o)
         = TS.Logstash ThisNew url tg lv (Some o)).
Proof.
  repeat match goal with |- _ /\ _ => split end; try reflexivity.
  - intros message fields. repeat split.
  - intros message stack fields Hown.
    unfold JS.error, TS.error, JS.merge_stack, TS.merge_stack,
      Object_assign, copy_properties.
    rewrite Hown. reflexivity.
  - intros fields stack k Hk. now apply merge_stack_agree.
  - intros fields stack H.
    destruct (merge_stack_agree_stack fields stack H) as [-> ->].
    reflexivity.
Qed.

(** [copies_agree] on an Error call without fields, and on the key
    "extra" of merged fields. *)
Lemma copies_agree_witness :
  JS.error Demo.env (Demo.instance false) Demo.boom VUndefined Demo.quiet
  = TS.error Demo.env (Demo.instance false) Demo.boom VUndefined Demo.quiet
  /\ obj_get "extra" (JS.merge_stack (VObj [("extra", VNum 1)]) "S")
     = obj_get "extra" (TS.merge_stack (VObj [("extra", VNum 1)]) "S")
  /\ obj_get "stack" (JS.merge_stack (VObj [("extra", VNum 1)]) "S")
     = obj_get "stack" (TS.merge_stack (VObj [("extra", VNum 1)]) "S").
Proof.
  destruct (copies_agree Demo.env (Demo.instance false) Demo.quiet)
    as (_ & _ & _ & _ & Hnone & Hother & Hstack & _).
  split; [|split].
  - apply Hnone. reflexivity.
  - apply Hother. discriminate.
  - apply Hstack. reflexivity.
Defined.

(* ------------------------------------------------------------------ *)
(** ** Delivery: retries, and what the caller sees of a failure *)

Local Open Scope nat_scope.

Section Retries.

Variables (net : Network) (cfg : Axios.RetryConfig) (req : Request)
          (d : value).
Hypothesis constant_delay : forall i, Axios.cfg_retryDelay cfg i = d.

(** The shape of every run of the retry loop: [k] retries within the
    budget, each after a failed attempt and a wait of [d]; nothing on the
    console; a rejection only once the budget is spent. *)
Lemma send_with_retries_trace (budget n : nat) (sys : Sys) :
  exists k,
    k <= budget
    /\ wire (snd (Axios.send_with_retries net cfg req budget n sys))
       = (wire sys ++ Spec.retry_trace req d k)%list
    /\ console (snd (Axios.send_with_retries net cfg req budget n sys))
       = console sys
    /\ (forall i, i < k -> exists e, Axios.attempt net req (n + i) = Rejected e)
    /\ match fst (Axios.send_with_retries net cfg req budget n sys) with
       | Resolved code => Axios.attempt net req (n + k) = Resolved code
       | Rejected e =>
           k = budget /\ Axios.attempt net req (n + k) = Rejected e
       end.
Proof.
  revert n sys.
  induction budget as [|b IH]; intros n sys; simpl.
  - exists 0. rewrite Nat.add_0_r.
    destruct (Axios.attempt net req n) as [code|e]; simpl;
      (split; [lia|]); repeat split; auto; intros i Hi; lia.
  - destruct (Axios.attempt net req n) as [code|e] eqn:Ha.
    + exists 0. rewrite Nat.add_0_r, Ha. simpl.
      split; [lia|]. repeat split; auto. intros i Hi; lia.
    + destruct (IH (S n)
                  (wire_log (Waited (Axios.cfg_retryDelay cfg (S n)))
                     (wire_log (Sent req) sys)))
        as (k & Hk & Hw & Hc & Hfail & Hout).
      exists (S k). split; [lia|]. split; [|split; [|split]].
      * rewrite Hw, constant_delay. simpl.
        rewrite <- !app_assoc. reflexivity.
      * rewrite Hc. reflexivity.
      * intros [|i] Hi.
        -- rewrite Nat.add_0_r. eauto.
        -- replace (n + S i) with (S n + i) by lia. apply Hfail. lia.
      * replace (n + S k) with (S n + k) by lia.
        destruct (fst (Axios.send_with_retries net cfg req b (S n) _));
          [exact Hout|].
        destruct Hout as [-> He]. now split.
Qed.

(** When every attempt fails the budget is used up and the promise is
    rejected. *)
Lemma send_with_retries_all_fail (budget n : nat) (sys : Sys) :
  Spec.always_fails net ->
  exists e sys',
    Axios.send_with_retries net cfg req budget n sys = (Rejected e, sys')
    /\ wire sys' = (wire sys ++ Spec.retry_trace req d budget)%list
    /\ console sys' = console sys.
Proof.
  intros Hfail.
  destruct (send_with_retries_trace budget n sys)
    as (k & Hk & Hw & Hc & _ & Hout).
  destruct (Axios.send_with_retries net cfg req budget n sys)
    as [[code|e] sys'] eqn:E; simpl in *.
  - destruct (Hfail req (n + k)) as [e He]. congruence.
  - destruct Hout as [-> _]. eauto.
Qed.

End Retries.

Lemma count_sent_retry_trace req d k :
  Spec.count_sent (Spec.retry_trace req d k) = k + 1.
Proof. induction k; simpl; lia. Qed.

(** [_sendEvent] on any instance: the promise it returns is never
    rejected.  A rejection of the client is turned into a fulfilment with
    [undefined] after one warning that carries the error's message; a
    success passes through. *)
Lemma ts_sendEvent_settles net self event sys :
  match Axios.call net (client self) (Spec.post_of self event) sys with
  | (Resolved code, sys1) =>
      TS._sendEvent net self event sys = (Resolved (Some code), sys1)
  | (Rejected e, sys1) =>
      TS._sendEvent net self event sys
      = (Resolved None,
         console_write Warn
           ("Could not send message to Logstash - [" ++ err_message e ++ "]")
           sys1)
  end.
Proof.
  unfold TS._sendEvent, Spec.post_of.
  destruct (Axios.call net (client self) _ sys) as [[code|e] sys1]; reflexivity.
Qed.

Lemma ts_sendEvent_resolves net self event sys :
  exists out sys', TS._sendEvent net self event sys = (Resolved out, sys').
Proof.
  pose proof (ts_sendEvent_settles net self event sys) as H.
  destruct (Axios.call net (client self) (Spec.post_of self event) sys)
    as [[code|e] sys1]; eauto.
Qed.

(** C2: on an instance built by the constructor, one call of
    [_sendEvent] posts the event and, after each failed attempt, waits
    [retryDelay] and posts the same request again, at most [maxRetries]
    more times; the delay is the same before every retry.  The retries
    stop at the first success (then nothing is written locally) or when
    the budget is spent.  On a transport that always fails the request
    goes out exactly [maxRetries + 1] times (eleven: [maxRetries] is 10),
    the delivery is then given up (the promise fulfils with [undefined])
    and exactly one warning is written. *)
Theorem send_retries_then_gives_up u tg lv o self net event sys :
  TS.Logstash ThisNew (Some u) tg lv (Some o) = Normal self ->
  (exists k sys',
      k <= Axios.retry_budget (maxRetries self)
      /\ wire sys'
         = (wire sys
            ++ Spec.retry_trace (Spec.post_of self event) (retryDelay self) k)%list
      /\ req_method (Spec.post_of self event) = "POST"
      /\ req_url (Spec.post_of self event) = url self
      /\ req_data (Spec.post_of self event) = event
      /\ (forall i, i < k ->
          exists e, Axios.attempt net (Spec.post_of self event) i = Rejected e)
      /\ ((exists code,
              Axios.attempt net (Spec.post_of self event) k = Resolved code
              /\ TS._sendEvent net self event sys = (Resolved (Some code), sys')
              /\ console sys' = console sys)
          \/ (exists e,
                 k = Axios.retry_budget (maxRetries self)
                 /\ Axios.attempt net (Spec.post_of self event) k = Rejected e
                 /\ TS._sendEvent net self event sys = (Resolved None, sys')
                 /\ console sys'
                    = (console sys
                       ++ [(Warn, ("Could not send message to Logstash - ["
                                   ++ err_message e ++ "]")%string)])%list)))
  /\ (Spec.always_fails net ->
      exists sys' line,
        TS._sendEvent net self event sys = (Resolved None, sys')
        /\ wire sys'
           = (wire sys
              ++ Spec.retry_trace (Spec.post_of self event) (retryDelay self)
                   (Axios.retry_budget (maxRetries self)))%list
        /\ Spec.count_sent
             (Spec.retry_trace (Spec.post_of self event) (retryDelay self)
                (Axios.retry_budget (maxRetries self)))
           = Axios.retry_budget (maxRetries self) + 1
        /\ Axios.retry_budget (maxRetries self) = 10
        /\ console sys' = (console sys ++ [(Warn, line)])%list).
Proof.
  intros Hnew.
  assert (Hself : maxRetries self = VNum 10
                  /\ Axios.retries (Axios.retry (client self)) = maxRetries self
                  /\ (forall n, Axios.cfg_retryDelay (Axios.retry (client self)) n
                                = retryDelay self)).
  { destruct (String.eqb u "") eqn:Hu.
    - unfold TS.Logstash in Hnew. rewrite Hu in Hnew. discriminate Hnew.
    - destruct (ts_new_Logstash u tg lv o Hu)
        as (self0 & E & _ & _ & _ & Hmax & _ & Hret & Hdel).
      rewrite E in Hnew. injection Hnew as <-. auto. }
  destruct Hself as (Hmax & Hret & Hdel).
  pose proof (ts_sendEvent_settles net self event sys) as Hsend.
  unfold Axios.call in Hsend. rewrite Hret in Hsend.
  split.
  - destruct (send_with_retries_trace net (Axios.retry (client self))
                (Spec.post_of self event) (retryDelay self) Hdel
                (Axios.retry_budget (maxRetries self)) 0 sys)
      as (k & Hk & Hw & Hc & Hfail & Hout).
    destruct (Axios.send_with_retries net (Axios.retry (client self))
                (Spec.post_of self event)
                (Axios.retry_budget (maxRetries self)) 0 sys)
      as [[code|e] sys1]; cbn [fst snd] in Hw, Hc, Hout, Hsend.
    + exists k, sys1. repeat split; auto. left. exists code. auto.
    + destruct Hout as [-> He].
      exists (Axios.retry_budget (maxRetries self)),
        (console_write Warn
           ("Could not send message to Logstash - [" ++ err_message e ++ "]")
           sys1).
      split; [exact Hk|]. split; [exact Hw|].
      repeat split; auto.
      right. exists e. repeat split; auto.
      unfold console_write. cbn [console]. now rewrite Hc.
  - intros Hall.
    destruct (send_with_retries_all_fail net
                (Axios.retry (client self))
                (Spec.post_of self event) (retryDelay self) Hdel
                (Axios.retry_budget (maxRetries self)) 0 sys Hall)
      as (e & sys1 & E & Hw & Hc).
    rewrite E in Hsend.
    do 2 eexists. split; [exact Hsend|]. simpl.
    split; [exact Hw|]. split; [apply count_sent_retry_trace|].
    split; [now rewrite Hmax|]. now rewrite Hc.
Qed.

(** [send_retries_then_gives_up] on a network that is down: eleven
    attempts of the one request, ten waits of the configured 500 ms
    between them, one warning. *)
Lemma send_retries_then_gives_up_witness :
  exists sys',
    TS._sendEvent Demo.down (Demo.instance false) Demo.event Demo.quiet
    = (Resolved None, sys')
    /\ wire sys'
       = Spec.retry_trace (Spec.post_of (Demo.instance false) Demo.event)
           (VNum 500) 10
    /\ Spec.count_sent (wire sys') = 11
    /\ console sys'
       = [(Warn, "Could not send message to Logstash - [connect ECONNREFUSED]")].
Proof.
  destruct (@send_retries_then_gives_up Demo.endpoint (Some ["app"]) None
              (Demo.options VUndefined) (Demo.instance false)
              Demo.down Demo.event Demo.quiet eq_refl) as [_ H].
  destruct (H (fun req n => ex_intro _ {| err_message := "connect ECONNREFUSED" |}
                              eq_refl))
    as (sys' & line & E & Hw & Hn & _ & Hc).
  exists sys'. split; [exact E|]. split; [exact Hw|].
  split; [rewrite Hw; exact Hn|].
  revert E. unfold TS._sendEvent. cbn. intros E. injection E as <-.
  reflexivity.
Defined.

(** ** Nothing escapes to the caller *)

Lemma js_sendEvent_resolves net self event sys :
  exists out sys', JS._sendEvent net self event sys = (Resolved out, sys').
Proof. rewrite js_sendEvent_is_ts_sendEvent. apply ts_sendEvent_resolves. Qed.

Lemma ts_perform_completes env c self sys :
  exists self' sys', TS.perform env c self sys = Normal (self', sys').
Proof.
  destruct c as [l m f|m f|m f|m f|e f]; simpl;
    unfold TS.debug, TS.info, TS.warn.
  1-4: match goal with
       | |- context [TS.log ?e ?s ?l ?m ?f ?y] =>
           destruct (ts_log_enqueues e s l m f y) as (s' & y' & ev & E & _)
       end; eauto.
  destruct (ts_error_enqueues env self e f sys) as (s' & y' & ev & E & _).
  eauto.
Qed.

Lemma js_perform_completes env c self sys :
  exists self' sys', JS.perform env c self sys = Normal (self', sys').
Proof.
  destruct c as [l m f|m f|m f|m f|e f]; simpl;
    unfold JS.debug, JS.info, JS.warn; rewrite ?js_log_is_ts_log.
  1-4: match goal with
       | |- context [TS.log ?e ?s ?l ?m ?f ?y] =>
           destruct (ts_log_enqueues e s l m f y) as (s' & y' & ev & E & _)
       end; eauto.
  destruct (js_error_enqueues env self e f sys) as (s' & y' & ev & E & _).
  eauto.
Qed.

Section SessionSafety.

Variable sendEvent :
  Network -> Instance -> Event -> Sys -> settled (option Z) * Sys.
Variable perform :
  Env -> api_call -> Instance -> Sys -> completion (Instance * Sys).

Hypothesis sendEvent_resolves : forall net self event sys,
  exists out sys', sendEvent net self event sys = (Resolved out, sys').
Hypothesis perform_completes : forall env c self sys,
  exists self' sys', perform env c self sys = Normal (self', sys').

Lemma run_step_safe (s : Session.step) (st : Session.state) :
  forallb Session.is_resolved (Session.outcomes st) = true ->
  exists st',
    Session.run_step sendEvent perform s st = Normal st'
    /\ forallb Session.is_resolved (Session.outcomes st') = true.
Proof.
  intros Hall. destruct s as [env c|net]; simpl.
  - destruct (perform_completes env c (Session.self st) (Session.sys st))
      as (self' & sys' & ->).
    eexists. split; [reflexivity|exact Hall].
  - destruct (PQueue.pending (queue (Session.self st))) as [|task rest].
    + eauto.
    + destruct (sendEvent_resolves net (Session.self st) task (Session.sys st))
        as (out & sys' & ->).
      eexists. split; [reflexivity|]. simpl.
      rewrite forallb_app, Hall. reflexivity.
Qed.

(** Whatever the program calls and whatever the network does, a session
    runs to its end and every task that ran has a fulfilled promise. *)
Lemma run_safe (steps : list Session.step) (st : Session.state) :
  forallb Session.is_resolved (Session.outcomes st) = true ->
  exists st',
    Session.run sendEvent perform steps st = Normal st'
    /\ forallb Session.is_resolved (Session.outcomes st') = true.
Proof.
  revert st.
  induction steps as [|s r IH]; intros st Hall; simpl; [eauto|].
  destruct (run_step_safe s st Hall) as (st1 & -> & Hall1).
  now apply IH.
Qed.

End SessionSafety.

(** C4: in either copy, for every event and every behaviour of the
    transport, the promise of [_sendEvent] is fulfilled, never rejected:
    with the response status when the client succeeds, and with
    [undefined] (the delivery-failed outcome), after one local warning
    carrying the error's message, when the client fails.  Hence in any
    session on a constructed instance (any calls of [log], [debug],
    [info], [warn], [error], interleaved with the queue running its
    tasks against any network) no call throws and no task leaves a
    rejected promise behind. *)
Theorem logging_never_throws :
  (forall net self event sys,
      (exists out sys', TS._sendEvent net self event sys = (Resolved out, sys'))
      /\ (exists out sys', JS._sendEvent net self event sys = (Resolved out, sys'))
      /\ match Axios.call net (client self) (Spec.post_of self event) sys with
         | (Resolved code, sys1) =>
             TS._sendEvent net self event sys = (Resolved (Some code), sys1)
             /\ JS._sendEvent net self event sys = (Resolved (Some code), sys1)
         | (Rejected e, sys1) =>
             let warned :=
               console_write Warn
                 ("Could not send message to Logstash - ["
                  ++ err_message e ++ "]") sys1 in
             TS._sendEvent net self event sys = (Resolved None, warned)
             /\ JS._sendEvent net self event sys = (Resolved None, warned)
         end)
  /\ (forall steps self sys,
         (exists st',
             Session.run TS._sendEvent TS.perform steps
               {| Session.self := self; Session.sys := sys;
                  Session.outcomes := [] |}
             = Normal st'
             /\ forallb Session.is_resolved (Session.outcomes st') = true)
         /\ (exists st',
                Session.run JS._sendEvent JS.perform steps
                  {| Session.self := self; Session.sys := sys;
                     Session.outcomes := [] |}
                = Normal st'
                /\ forallb Session.is_resolved (Session.outcomes st') = true)).
Proof.
  split.
  - intros net self event sys.
    split; [apply ts_sendEvent_resolves|].
    split; [apply js_sendEvent_resolves|].
    rewrite js_sendEvent_is_ts_sendEvent.
    pose proof (ts_sendEvent_settles net self event sys) as H.
    destruct (Axios.call net (client self) (Spec.post_of self event) sys)
      as [[code|e] sys1]; now split.
  - intros steps self sys. split.
    + apply (run_safe TS._sendEvent TS.perform
               ts_sendEvent_resolves ts_perform_completes).
      reflexivity.
    + apply (run_safe JS._sendEvent JS.perform
               js_sendEvent_resolves js_perform_completes).
      reflexivity.
Qed.

(** A session while the network is down: an error is logged, the task
    runs and fails eleven times, and the only traces are the error line
    and one warning. *)
Example session_on_dead_network :
  exists st',
    Session.run TS._sendEvent TS.perform
      [Session.Call Demo.env (CallError (PlainMessage "boom") VUndefined);
       Session.Dispatch Demo.down]
      {| Session.self := Demo.instance false; Session.sys := Demo.quiet;
         Session.outcomes := [] |}
    = Normal st'
    /\ Session.outcomes st' = [Resolved None]
    /\ console (Session.sys st')
       = [(Error, "boom");
          (Warn, "Could not send message to Logstash - [connect ECONNREFUSED]")]
    /\ Spec.count_sent (wire (Session.sys st')) = 11.
Proof. eexists. repeat split; vm_compute; reflexivity. Qed.

(* ------------------------------------------------------------------ *)
(** ** The timestamp reads back *)

Local Close Scope nat_scope.

Module DateFacts.
Import JSDate.
Local Open Scope Z_scope.

Lemma digit_value_digit (d : Z) :
  0 <= d < 10 -> digit_value (digit d) = Some d.
Proof.
  intros H.
  assert (d = 0 \/ d = 1 \/ d = 2 \/ d = 3 \/ d = 4 \/ d = 5 \/ d = 6
          \/ d = 7 \/ d = 8 \/ d = 9) as Hd by lia.
  repeat (destruct Hd as [->|Hd]; [reflexivity|]). subst. reflexivity.
Qed.

Lemma digit_not_sign (d : Z) :
  0 <= d < 10 ->
  Ascii.eqb (digit d) "+" = false /\ Ascii.eqb (digit d) "-" = false.
Proof.
  intros H.
  assert (d = 0 \/ d = 1 \/ d = 2 \/ d = 3 \/ d = 4 \/ d = 5 \/ d = 6
          \/ d = 7 \/ d = 8 \/ d = 9) as Hd by lia.
  repeat (destruct Hd as [->|Hd]; [split; reflexivity|]).
  subst. split; reflexivity.
Qed.

(** Reading [w] digits off a padded number gives its low [w] digits. *)
Lemma take_digits_pad (w : nat) (acc n : Z) (rest : string) :
  take_digits w acc (pad w n ++ rest)
  = Some (acc * 10 ^ Z.of_nat w + n mod 10 ^ Z.of_nat w, rest).
Proof.
  revert acc.
  induction w as [|w IH]; intros acc.
  - simpl. rewrite Z.mod_1_r. do 2 f_equal. lia.
  - cbn [pad take_digits String.append].
    rewrite digit_value_digit by (apply Z.mod_pos_bound; lia).
    rewrite IH. do 2 f_equal.
    rewrite Nat2Z.inj_succ, Z.pow_succ_r by lia.
    assert (Hp : 0 < 10 ^ Z.of_nat w) by (apply Z.pow_pos_nonneg; lia).
    rewrite (Z.mul_comm 10 (10 ^ Z.of_nat w)).
    rewrite (Z.rem_mul_r n (10 ^ Z.of_nat w) 10) by lia.
    ring.
Qed.

Lemma take_digits_pad_small (w : nat) (n : Z) (rest : string) :
  0 <= n < 10 ^ Z.of_nat w ->
  take_digits w 0 (pad w n ++ rest) = Some (n, rest).
Proof.
  intros H. rewrite take_digits_pad, Z.mod_small by assumption.
  reflexivity.
Qed.

Lemma take_year_year_string (y : Z) (rest : string) :
  -999999 <= y <= 999999 ->
  take_year (year_string y ++ rest) = Some (y, rest).
Proof.
  intros Hy. unfold year_string.
  destruct ((0 <=? y) && (y <=? 9999))%bool eqn:E4.
  - apply andb_prop in E4 as [H0 H1].
    apply Z.leb_le in H0. apply Z.leb_le in H1.
    pose proof (take_digits_pad_small 4 y rest) as Hd.
    change (pad 4 y ++ rest)
      with (String (digit ((y / 10 ^ Z.of_nat 3) mod 10)) (pad 3 y ++ rest))
      in Hd |- *.
    unfold take_year.
    destruct (digit_not_sign ((y / 10 ^ Z.of_nat 3) mod 10)) as [-> ->];
      [apply Z.mod_pos_bound; lia|].
    apply Hd. change (10 ^ Z.of_nat 4) with 10000. lia.
  - assert (Hout : y < 0 \/ 9999 < y).
    { destruct (0 <=? y) eqn:H0; simpl in E4.
      - apply Z.leb_gt in E4. now right.
      - apply Z.leb_gt in H0. now left. }
    pose proof (take_digits_pad_small 6 (- y) rest) as Hneg.
    pose proof (take_digits_pad_small 6 y rest) as Hpos.
    change (10 ^ Z.of_nat 6) with 1000000 in Hneg, Hpos.
    destruct (y <? 0) eqn:Hs.
    + apply Z.ltb_lt in Hs.
      change (("-" ++ pad 6 (- y)) ++ rest)
        with (String "-" (pad 6 (- y) ++ rest)).
      unfold take_year.
      change (Ascii.eqb "-" "+") with false.
      change (Ascii.eqb "-" "-") with true. cbv iota.
      rewrite Hneg by lia.
      destruct (- y =? 0) eqn:Hz; [apply Z.eqb_eq in Hz; lia|].
      now rewrite Z.opp_involutive.
    + apply Z.ltb_ge in Hs.
      change (("+" ++ pad 6 y) ++ rest) with (String "+" (pad 6 y ++ rest)).
      unfold take_year. change (Ascii.eqb "+" "+") with true. cbv iota.
      apply Hpos. lia.
Qed.

(** *** The calendar *)

Lemma all_from_spec (n : nat) (k : Z) (p : Z -> bool) :
  all_from n k p = true ->
  forall j, k <= j < k + Z.of_nat n -> p j = true.
Proof.
  revert k.
  induction n as [|n IH]; intros k H j Hj; [simpl in Hj; lia|].
  cbn [all_from] in H. apply andb_prop in H as [Hk Hr].
  destruct (Z.eq_dec j k) as [->|Hne]; [exact Hk|].
  apply (IH (k + 1) Hr). lia.
Qed.

(** Every day of a year passes the check, whatever the leap flags. *)
Lemma every_doy_ok (leap leap' : bool) :
  all_from 366 0 (doy_ok leap leap') = true.
Proof. destruct leap, leap'; vm_compute; reflexivity. Qed.

Lemma doy_ok_spec (leap leap' : bool) (doy : Z) :
  0 <= doy <= 365 -> doy_ok leap leap' doy = true.
Proof.
  intros H. apply (all_from_spec 366 0 _ (every_doy_ok leap leap')).
  change (Z.of_nat 366) with 366. lia.
Qed.

Lemma is_leap_true (y : Z) :
  is_leap y = true -> y mod 4 = 0 /\ (y mod 100 <> 0 \/ y mod 400 = 0).
Proof.
  unfold is_leap. intros H. apply andb_prop in H as [H4 H].
  apply Z.eqb_eq in H4. split; [exact H4|].
  apply orb_prop in H as [H|H].
  - left. apply negb_true_iff, Z.eqb_neq in H. exact H.
  - right. now apply Z.eqb_eq.
Qed.

Lemma is_leap_false (y : Z) :
  is_leap y = false -> y mod 4 <> 0 \/ (y mod 100 = 0 /\ y mod 400 <> 0).
Proof.
  unfold is_leap. intros H. apply andb_false_iff in H as [H|H].
  - left. now apply Z.eqb_neq.
  - right. apply orb_false_iff in H as [H1 H2].
    apply negb_false_iff, Z.eqb_eq in H1. apply Z.eqb_neq in H2. now split.
Qed.

(** Within an era: the year is one of 400, the day of the year one of
    366, and a 366th day only closes a year before a leap year. *)
Lemma era_year (doe : Z) :
  0 <= doe < 146097 ->
  0 <= yoe_of_doe doe <= 399
  /\ 0 <= doy_of_doe doe <= 365
  /\ (doy_of_doe doe = 365 ->
      (yoe_of_doe doe + 1) mod 4 = 0
      /\ ((yoe_of_doe doe + 1) mod 100 <> 0 \/ yoe_of_doe doe + 1 = 400)).
Proof.
  intros H. unfold doy_of_doe, yoe_of_doe.
  Z.to_euclidean_division_equations. lia.
Qed.

(** The day number of the first of March of year [y]. *)
Lemma march_first (y : Z) :
  DayFromYear y + 59 + (if is_leap y then 1 else 0)
  = 365 * y + y / 4 - y / 100 + y / 400 - 719468.
Proof.
  unfold DayFromYear.
  destruct (is_leap y) eqn:E;
    [apply is_leap_true in E|apply is_leap_false in E];
    Z.to_euclidean_division_equations; lia.
Qed.

(** The first of January that follows comes 306 days later. *)
Lemma january_first_next (y : Z) :
  DayFromYear (y + 1)
  = 365 * y + y / 4 - y / 100 + y / 400 + 306 - 719468.
Proof. unfold DayFromYear. Z.to_euclidean_division_equations. lia. Qed.

Lemma is_leap_next_era (yoe era : Z) :
  (yoe + 1) mod 4 = 0 ->
  (yoe + 1) mod 100 <> 0 \/ yoe + 1 = 400 ->
  is_leap (yoe + 1 + 400 * era) = true.
Proof.
  intros H4 H100. unfold is_leap.
  apply andb_true_intro. split.
  - apply Z.eqb_eq. Z.to_euclidean_division_equations; lia.
  - apply orb_true_intro. destruct H100 as [H|H].
    + left. apply negb_true_iff, Z.eqb_neq.
      Z.to_euclidean_division_equations; lia.
    + right. apply Z.eqb_eq. Z.to_euclidean_division_equations; lia.
Qed.

(** The date of a day is a calendar date, and it names that day. *)
Lemma civil_of_day (day : Z) :
  1 <= MonthFromDay day <= 12
  /\ 1 <= DateFromDay day <= DaysInMonth (YearFromDay day) (MonthFromDay day)
  /\ MakeDay (YearFromDay day) (MonthFromDay day) (DateFromDay day) = day
  /\ 400 * era_of_day day <= YearFromDay day <= 400 * era_of_day day + 400.
Proof.
  unfold YearFromDay, MonthFromDay, DateFromDay, year_of_doe, month_of_doe,
    date_of_doe, MakeDay, DaysInMonth, days_before_month.
  assert (Hdoe : 0 <= doe_of_day day < 146097)
    by (unfold doe_of_day; apply Z.mod_pos_bound; lia).
  assert (Hday : day + 719468 = 146097 * era_of_day day + doe_of_day day)
    by (unfold era_of_day, doe_of_day; apply Z.div_mod; lia).
  destruct (era_year _ Hdoe) as (Hyoe & Hdoy & H365).
  assert (Hstart : doy_of_doe (doe_of_day day)
                   = doe_of_day day
                     - (365 * yoe_of_doe (doe_of_day day)
                        + yoe_of_doe (doe_of_day day) / 4
                        - yoe_of_doe (doe_of_day day) / 100)) by reflexivity.
  revert Hyoe Hdoy H365 Hstart.
  generalize (doy_of_doe (doe_of_day day)) as doy.
  generalize (yoe_of_doe (doe_of_day day)) as yoe.
  revert Hdoe Hday.
  generalize (doe_of_day day) as doe. generalize (era_of_day day) as era.
  intros era doe Hdoe Hday yoe doy Hyoe Hdoy H365 Hstart.
  pose proof (march_first (yoe + 400 * era)) as Hmarch.
  pose proof (january_first_next (yoe + 400 * era)) as Hjan.
  pose proof (doy_ok_spec (is_leap (yoe + 400 * era))
                (is_leap (yoe + 1 + 400 * era)) doy Hdoy) as Hok.
  unfold doy_ok, in_range in Hok.
  revert Hok.
  generalize (month_of_doy doy) as m. generalize (date_of_doy doy) as d.
  intros d m Hok.
  apply andb_prop in Hok as [Hok Hrest].
  apply andb_prop in Hok as [Hm Hd1].
  apply andb_prop in Hm as [Hm1 Hm12].
  apply Z.leb_le in Hm1, Hm12, Hd1.
  destruct (m <=? 2) eqn:Hjf.
  - replace (yoe + 1 + 400 * era) with (yoe + 400 * era + 1) in * by lia.
    apply andb_prop in Hrest as [Hdim Hbefore].
    apply Z.eqb_eq in Hbefore.
    assert (Hd : d <= days_in_month (is_leap (yoe + 400 * era + 1)) m).
    { apply orb_prop in Hdim as [H|H]; [now apply Z.leb_le|].
      apply andb_prop in H as [H1 H2]. apply Z.eqb_eq in H1.
      destruct (H365 H1) as [H4 H100].
      replace (yoe + 400 * era + 1) with (yoe + 1 + 400 * era) in H2 by lia.
      rewrite (is_leap_next_era yoe era H4 H100) in H2. discriminate H2. }
    revert Hjan. Z.to_euclidean_division_equations. lia.
  - rewrite Z.add_0_r.
    apply andb_prop in Hrest as [Hdim Hbefore].
    apply Z.leb_le in Hdim. apply Z.eqb_eq in Hbefore.
    revert Hmarch. Z.to_euclidean_division_equations. lia.
Qed.

(** *** The time within the day *)

Lemma time_of_day (t : Z) :
  0 <= HourFromTime t <= 23
  /\ 0 <= MinFromTime t <= 59
  /\ 0 <= SecFromTime t <= 59
  /\ 0 <= msFromTime t <= 999
  /\ MakeDate (Day t)
       (MakeTime (HourFromTime t) (MinFromTime t) (SecFromTime t)
          (msFromTime t)) = t.
Proof.
  unfold HourFromTime, MinFromTime, SecFromTime, msFromTime, MakeDate,
    MakeTime, Day, msPerDay.
  Z.to_euclidean_division_equations. lia.
Qed.

Lemma year_in_six_digits (t : Z) :
  - maxTime <= t <= maxTime ->
  -999999 <= YearFromDay (Day t) <= 999999.
Proof.
  intros Ht.
  destruct (civil_of_day (Day t)) as (_ & _ & _ & Hy).
  revert Hy Ht. unfold era_of_day, Day, msPerDay, maxTime.
  generalize (YearFromDay (t / 86400000)). intros y.
  Z.to_euclidean_division_equations. lia.
Qed.

(** *** Reading a well-formed text *)

Lemma expect_head (c : ascii) (rest : string) :
  expect c (String c rest) = Some rest.
Proof. simpl. now rewrite Ascii.eqb_refl. Qed.

Lemma take2 (n : Z) (rest : string) :
  0 <= n <= 99 -> take_digits 2 0 (pad 2 n ++ rest) = Some (n, rest).
Proof.
  intros H. apply take_digits_pad_small.
  change (10 ^ Z.of_nat 2) with 100. lia.
Qed.

Lemma take3 (n : Z) (rest : string) :
  0 <= n <= 999 -> take_digits 3 0 (pad 3 n ++ rest) = Some (n, rest).
Proof.
  intros H. apply take_digits_pad_small.
  change (10 ^ Z.of_nat 3) with 1000. lia.
Qed.

Lemma in_range_true (lo x hi : Z) : lo <= x <= hi -> in_range lo x hi = true.
Proof.
  intros [H1 H2]. unfold in_range.
  apply Z.leb_le in H1. apply Z.leb_le in H2. now rewrite H1, H2.
Qed.

Lemma DaysInMonth_le_31 (y m : Z) : DaysInMonth y m <= 31.
Proof.
  unfold DaysInMonth, days_in_month.
  destruct (m =? 2); [destruct (is_leap y); lia|].
  destruct ((m =? 4) || (m =? 6) || (m =? 9) || (m =? 11))%bool; lia.
Qed.

(** The text of a valid date and time reads back as the time it names. *)
Lemma parse_fields (y m d h mi sec ms : Z) :
  -999999 <= y <= 999999 ->
  1 <= m <= 12 ->
  1 <= d <= DaysInMonth y m ->
  0 <= h <= 23 -> 0 <= mi <= 59 -> 0 <= sec <= 59 -> 0 <= ms <= 999 ->
  - maxTime <= MakeDate (MakeDay y m d) (MakeTime h mi sec ms) <= maxTime ->
  parse (year_string y ++ "-" ++ pad 2 m ++ "-" ++ pad 2 d ++ "T" ++
         pad 2 h ++ ":" ++ pad 2 mi ++ ":" ++ pad 2 sec ++ "." ++
         pad 3 ms ++ "Z")
  = Some (MakeDate (MakeDay y m d) (MakeTime h mi sec ms)).
Proof.
  intros Hy Hm Hd Hh Hmi Hs Hms Ht.
  pose proof (DaysInMonth_le_31 y m) as H31.
  unfold parse, bind.
  rewrite take_year_year_string by assumption.
  cbn [String.append]. rewrite expect_head.
  rewrite take2 by lia. cbn [String.append]. rewrite expect_head.
  rewrite take2 by lia. cbn [String.append]. rewrite expect_head.
  rewrite take2 by lia. cbn [String.append]. rewrite expect_head.
  rewrite take2 by lia. cbn [String.append]. rewrite expect_head.
  rewrite take2 by lia. cbn [String.append]. rewrite expect_head.
  rewrite take3 by lia. rewrite expect_head.
  change (negb ("" =? "")%string) with false. cbv iota.
  rewrite !in_range_true by assumption.
  reflexivity.
Qed.

(** Every time value prints as a text that reads back as that value. *)
Lemma parse_toISOString (t : Z) :
  - maxTime <= t <= maxTime -> parse (toISOString t) = Some t.
Proof.
  intros Ht.
  destruct (civil_of_day (Day t)) as (Hm & Hd & Hday & _).
  destruct (time_of_day t) as (Hh & Hmi & Hs & Hms & Htime).
  unfold toISOString.
  rewrite parse_fields; try assumption.
  - now rewrite Hday, Htime.
  - now apply year_in_six_digits.
  - now rewrite Hday, Htime.
Qed.

Lemma toISOString_is_iso8601 (t : Z) :
  - maxTime <= t <= maxTime -> is_iso8601 (toISOString t) = true.
Proof.
  intros Ht. unfold is_iso8601. now rewrite parse_toISOString.
Qed.

End DateFacts.

(** ** The stamps of a built event *)

(** C7: for every level, message and fields and every instance, the event
    that [log] builds and enqueues has both stamps: "@timestamp" is
    present and is the ISO-8601 text of the clock at the call, which
    reads back as that very time, and "@tags" is present and equal to the
    configured tags. *)
Theorem built_event_stamped env self level message fields sys :
  - JSDate.maxTime <= now env <= JSDate.maxTime ->
  exists self' sys' ev ts,
    TS.log env self level message fields sys = Normal (self', sys')
    /\ PQueue.pending (queue self')
       = (PQueue.pending (queue self) ++ [ev])%list
    /\ ev_timestamp ev = Some ts
    /\ ts = JSDate.toISOString (now env)
    /\ JSDate.is_iso8601 ts = true
    /\ JSDate.parse ts = Some (now env)
    /\ ev_tags ev = Some (tags self).
Proof.
  intros Hnow.
  destruct (ts_log_enqueues env self level message fields sys)
    as (self' & sys' & ev & E & Hq & _ & _ & _ & _ & Hts & Htags).
  exists self', sys', ev, (JSDate.toISOString (now env)).
  repeat split; auto.
  - now apply DateFacts.toISOString_is_iso8601.
  - now apply DateFacts.parse_toISOString.
Qed.

(** [built_event_stamped] on a call made on 2 November 2026. *)
Lemma built_event_stamped_witness :
  exists self' sys' ev,
    TS.log Demo.env (Demo.instance true) "info" "started" VUndefined Demo.quiet
    = Normal (self', sys')
    /\ PQueue.pending (queue self') = [ev]
    /\ ev_timestamp ev = Some "2026-11-02T06:34:56.789Z"
    /\ JSDate.parse "2026-11-02T06:34:56.789Z" = Some 1793601296789
    /\ ev_tags ev = Some ["app"].
Proof.
  destruct (built_event_stamped Demo.env (Demo.instance true) "info" "started"
              VUndefined Demo.quiet)
    as (self' & sys' & ev & ts & E & Hq & Hts & Heq & _ & Hparse & Htags).
  - vm_compute. split; discriminate.
  - exists self', sys', ev. subst ts.
    split; [exact E|]. split; [exact Hq|]. split; [exact Hts|].
    split; [exact Hparse|exact Htags].
Defined.

(** The extremes of the time value print with an expanded year. *)
Example toISOString_extremes :
  JSDate.toISOString 0 = "1970-01-01T00:00:00.000Z"
  /\ JSDate.toISOString (-1) = "1969-12-31T23:59:59.999Z"
  /\ JSDate.toISOString JSDate.maxTime = "+275760-09-13T00:00:00.000Z"
  /\ JSDate.toISOString (- JSDate.maxTime) = "-271821-04-20T00:00:00.000Z"
  /\ JSDate.parse "2026-02-29T00:00:00.000Z" = None.
Proof. repeat split; vm_compute; reflexivity. Qed.

(* ------------------------------------------------------------------ *)
(** * Further properties of the code *)

(** ** Construction: defaults, wiring, and the order of the checks *)

Lemma js_or_or_default (x d : value) : js_or x d = Frame.or_default x d.
Proof.
  unfold js_or, Frame.or_default.
  destruct x as [| |[|]|z|s|l|o]; try reflexivity.
  - destruct z; reflexivity.
  - simpl. destruct (String.eqb s ""); reflexivity.
Qed.

Lemma js_or_truthy (x d : value) : truthy d = true -> truthy (js_or x d) = true.
Proof. intros Hd. unfold js_or. destruct (truthy x) eqn:E; assumption. Qed.

(** X1: on a non-empty URL and an options object, construction under
    [new] succeeds in both copies with the same instance.  The URL is
    kept verbatim, missing tags and level become [[]] and "info",
    [maxRetries] is 10 whatever the options, and each of [retryDelay],
    [concurrency] and [maxMessagesPerSecond] is the option when it is
    truthy and the default (10000, 25, 10) otherwise: a given 0 is
    replaced, a negative number is kept, and none of the three is ever
    falsy.  The client and the queue are set up from exactly these stored
    values, the interval is 1000 and the queue starts empty. *)
Theorem constructed_instance_consistent u tg lv (o : Options) :
  (u =? "")%string = false ->
  exists self,
    TS.Logstash ThisNew (Some u) tg lv (Some o) = Normal self
    /\ JS.create (Some u) tg lv (Some o) = Normal (Some self)
    /\ url self = u
    /\ tags self = default_param [] tg
    /\ level self = default_param "info" lv
    /\ maxRetries self = VNum 10
    /\ retryDelay self = Frame.or_default (opt_retryDelay o) (VNum 10000)
    /\ concurrency self = Frame.or_default (opt_concurrency o) (VNum 25)
    /\ maxMessagesPerSecond self
       = Frame.or_default (opt_maxMessagesPerSecond o) (VNum 10)
    /\ truthy (retryDelay self) = true
    /\ truthy (concurrency self) = true
    /\ truthy (maxMessagesPerSecond self) = true
    /\ Axios.retries (Axios.retry (client self)) = maxRetries self
    /\ (forall n, Axios.cfg_retryDelay (Axios.retry (client self)) n
                  = retryDelay self)
    /\ PQueue.concurrency (queue self) = concurrency self
    /\ PQueue.intervalCap (queue self) = maxMessagesPerSecond self
    /\ PQueue.interval (queue self) = 1000%Z
    /\ PQueue.pending (queue self) = [].
Proof.
  intros Hu. unfold JS.create, JS.Logstash, TS.Logstash. rewrite Hu.
  eexists. split; [reflexivity|]. split; [reflexivity|]. cbn.
  rewrite <- !js_or_or_default.
  repeat split; try reflexivity; now apply js_or_truthy.
Qed.

(** [constructed_instance_consistent] with a zero delay, a negative
    concurrency and no rate: the zero is replaced, the negative kept. *)
Lemma constructed_instance_consistent_witness :
  exists self,
    JS.create (Some Demo.endpoint) None None
      (Some {| opt_retryDelay := VNum 0; opt_concurrency := VNum (-1);
               opt_maxMessagesPerSecond := VUndefined;
               opt_muteConsole := VUndefined |})
    = Normal (Some self)
    /\ retryDelay self = VNum 10000
    /\ concurrency self = VNum (-1)
    /\ maxMessagesPerSecond self = VNum 10
    /\ PQueue.concurrency (queue self) = VNum (-1).
Proof.
  destruct (constructed_instance_consistent Demo.endpoint None None
              {| opt_retryDelay := VNum 0; opt_concurrency := VNum (-1);
                 opt_maxMessagesPerSecond := VUndefined;
                 opt_muteConsole := VUndefined |} eq_refl)
    as (self & _ & E & _ & _ & _ & _ & Hd & Hc & Hm & _ & _ & _ & _ & _
        & Hq & _).
  exists self. repeat split; try assumption.
  now rewrite Hq.
Defined.

(** X2: the URL is checked before anything else.  In both copies the
    constructor throws the TypeError "Invalid URL" exactly when the URL
    is missing or empty, whatever the receiver and the other arguments
    (a missing options object included); no other input produces that
    error. *)
Theorem invalid_url_checked_first this url tg lv options :
  (url_falsy url = true ->
   TS.Logstash this url tg lv options = Throw (TypeError "Invalid URL")
   /\ TS.create url tg lv options = Throw (TypeError "Invalid URL")
   /\ JS.Logstash url tg lv options = Throw (TypeError "Invalid URL")
   /\ JS.create url tg lv options = Throw (TypeError "Invalid URL"))
  /\ (TS.Logstash this url tg lv options = Throw (TypeError "Invalid URL") ->
      url_falsy url = true)
  /\ (JS.create url tg lv options = Throw (TypeError "Invalid URL") ->
      url_falsy url = true).
Proof.
  unfold TS.create, JS.create, TS.Logstash, JS.Logstash, url_falsy.
  destruct url as [u|]; [|now repeat split].
  destruct (String.eqb u ""); [now repeat split|].
  split; [discriminate|]. split.
  - destruct this; [discriminate|]. destruct options; discriminate.
  - discriminate.
Qed.

(** [invalid_url_checked_first] on an empty URL without options and
    without [new]. *)
Lemma invalid_url_checked_first_witness :
  TS.Logstash ThisUndefined (Some "") None None None
  = Throw (TypeError "Invalid URL")
  /\ JS.create None None None None = Throw (TypeError "Invalid URL").
Proof.
  split.
  - exact (proj1 (proj1 (invalid_url_checked_first ThisUndefined (Some "")
                           None None None) eq_refl)).
  - exact (proj2 (proj2 (proj2
             (proj1 (invalid_url_checked_first ThisUndefined None
                       None None None) eq_refl)))).
Defined.

(** X3: the options argument may be left out of the JavaScript copy, which
    then uses every default and leaves the console on; the constructor
    of the TypeScript source has no default for it and, under [new] and
    on a valid URL, throws the engine's TypeError at the first read,
    [options.retryDelay]. *)
Theorem options_left_out u tg lv :
  (u =? "")%string = false ->
  TS.Logstash ThisNew (Some u) tg lv None
  = Throw (EngineTypeError "options.retryDelay")
  /\ exists self,
       JS.create (Some u) tg lv None = Normal (Some self)
       /\ JS.create (Some u) tg lv (Some empty_options) = Normal (Some self)
       /\ retryDelay self = VNum 10000
       /\ concurrency self = VNum 25
       /\ maxMessagesPerSecond self = VNum 10
       /\ maxRetries self = VNum 10
       /\ muteConsole self = false.
Proof.
  intros Hu. unfold TS.Logstash, JS.create, JS.Logstash. rewrite Hu.
  split; [reflexivity|]. eexists. repeat split.
Qed.

(** [options_left_out] on the endpoint of the examples. *)
Lemma options_left_out_witness :
  TS.Logstash ThisNew (Some Demo.endpoint) (Some ["app"]) None None
  = Throw (EngineTypeError "options.retryDelay")
  /\ exists self,
       JS.create (Some Demo.endpoint) (Some ["app"]) None None
       = Normal (Some self)
       /\ muteConsole self = false.
Proof.
  destruct (options_left_out Demo.endpoint (Some ["app"]) None eq_refl)
    as [Hts (self & E & _ & _ & _ & _ & _ & Hm)].
  split; [exact Hts|]. exists self. now split.
Defined.

(** ** What a call of the API does, and what it leaves alone *)

(** Everything [log] does. *)
Lemma ts_log_effect env self level message fields sys :
  exists ev sys',
    TS.log env self level message fields sys
    = Normal (with_queue self (PQueue.add ev (queue self)), sys')
    /\ ev = {| ev_level := level; ev_fields := fields;
               ev_message := message;
               ev_timestamp := Some (JSDate.toISOString (now env));
               ev_tags := Some (tags self);
               ev_navigator := option_map navigator_meta (navigator env);
               ev_location := option_map location_meta (location env) |}
    /\ wire sys' = wire sys
    /\ (muteConsole self = true -> sys' = sys)
    /\ (muteConsole self = false ->
        exists line,
          console sys'
          = (console sys ++ [(Spec.stream_of_level level, line)])%list).
Proof.
  unfold TS.log, Spec.stream_of_level.
  set (ev := match location env with Some _ => _ | None => _ end).
  assert (Hev : ev = {| ev_level := level; ev_fields := fields;
                        ev_message := message;
                        ev_timestamp := Some (JSDate.toISOString (now env));
                        ev_tags := Some (tags self);
                        ev_navigator :=
                          option_map navigator_meta (navigator env);
                        ev_location :=
                          option_map location_meta (location env) |}).
  { subst ev. destruct (location env), (navigator env); reflexivity. }
  change (muteConsole (with_queue self (PQueue.add ev (queue self))))
    with (muteConsole self).
  destruct (muteConsole self).
  - exists ev, sys. repeat split; auto. discriminate.
  - destruct (String.eqb level "error");
      [|destruct (String.eqb level "warn")];
      (eexists ev, _; split; [reflexivity|]; split; [exact Hev|];
       split; [reflexivity|]; split; [discriminate|];
       intros _; eexists; reflexivity).
Qed.

(** Each operation adds one task that carries its level and message,
    and sends nothing; muted, it writes nothing. *)
Lemma perform_adds_task env (c : api_call) self sys :
  (exists ev sys',
      TS.perform env c self sys
      = Normal (with_queue self (PQueue.add ev (queue self)), sys')
      /\ ev_level ev = Frame.level_of_call c
      /\ ev_message ev = Frame.message_of_call c
      /\ wire sys' = wire sys
      /\ (muteConsole self = true -> sys' = sys))
  /\ (exists ev sys',
         JS.perform env c self sys
         = Normal (with_queue self (PQueue.add ev (queue self)), sys')
         /\ ev_level ev = Frame.level_of_call c
         /\ ev_message ev = Frame.message_of_call c
         /\ wire sys' = wire sys
         /\ (muteConsole self = true -> sys' = sys)).
Proof.
  assert (H : forall l m f,
             exists ev sys',
               TS.log env self l m f sys
               = Normal (with_queue self (PQueue.add ev (queue self)), sys')
               /\ ev_level ev = l /\ ev_message ev = m
               /\ wire sys' = wire sys
               /\ (muteConsole self = true -> sys' = sys)).
  { intros l m f.
    destruct (ts_log_effect env self l m f sys)
      as (ev & sys' & E & -> & Hw & Hm & _).
    eexists _, sys'. split; [exact E|]. repeat split; auto. }
  split.
  - destruct c as [l m f|m f|m f|m f|[m st|t] f];
      cbn [TS.perform Frame.level_of_call Frame.message_of_call];
      unfold TS.debug, TS.info, TS.warn, TS.error; apply H.
  - destruct c as [l m f|m f|m f|m f|[m st|t] f];
      cbn [JS.perform Frame.level_of_call Frame.message_of_call];
      unfold JS.debug, JS.info, JS.warn, JS.error;
      rewrite js_log_is_ts_log; apply H.
Qed.

(** X4: every operation of the API, in either copy, changes the instance
    only by adding one task at the end of the queue, never touches the
    wire (no network traffic happens inside the call), writes nothing
    when the console is muted and exactly one line, on the stream of the
    operation's level, when it is not.  The task's event carries the
    level of the operation ("debug", "info", "warn", "error", or the one
    given to [log], unvalidated), the message, the clock reading as
    timestamp, the configured tags, and the browser metadata exactly when
    the host has the globals. *)
Theorem api_call_effect env (c : api_call) self sys :
  (exists ev sys',
      TS.perform env c self sys
      = Normal (with_queue self (PQueue.add ev (queue self)), sys')
      /\ ev_level ev = Frame.level_of_call c
      /\ ev_message ev = Frame.message_of_call c
      /\ ev_timestamp ev = Some (JSDate.toISOString (now env))
      /\ ev_tags ev = Some (tags self)
      /\ ev_navigator ev = option_map navigator_meta (navigator env)
      /\ ev_location ev = option_map location_meta (location env)
      /\ wire sys' = wire sys
      /\ (muteConsole self = true -> sys' = sys)
      /\ (muteConsole self = false ->
          exists line,
            console sys'
            = (console sys
               ++ [(Spec.stream_of_level (Frame.level_of_call c), line)])%list))
  /\ (exists ev sys',
         JS.perform env c self sys
         = Normal (with_queue self (PQueue.add ev (queue self)), sys')
         /\ ev_level ev = Frame.level_of_call c
         /\ ev_message ev = Frame.message_of_call c
         /\ ev_timestamp ev = Some (JSDate.toISOString (now env))
         /\ ev_tags ev = Some (tags self)
         /\ ev_navigator ev = option_map navigator_meta (navigator env)
         /\ ev_location ev = option_map location_meta (location env)
         /\ wire sys' = wire sys
         /\ (muteConsole self = true -> sys' = sys)
         /\ (muteConsole self = false ->
             exists line,
               console sys'
               = (console sys
                  ++ [(Spec.stream_of_level (Frame.level_of_call c),
                       line)])%list)).
Proof.
  assert (H : forall l m f,
             exists ev sys',
               TS.log env self l m f sys
               = Normal (with_queue self (PQueue.add ev (queue self)), sys')
               /\ ev_level ev = l /\ ev_message ev = m
               /\ ev_timestamp ev = Some (JSDate.toISOString (now env))
               /\ ev_tags ev = Some (tags self)
               /\ ev_navigator ev = option_map navigator_meta (navigator env)
               /\ ev_location ev = option_map location_meta (location env)
               /\ wire sys' = wire sys
               /\ (muteConsole self = true -> sys' = sys)
               /\ (muteConsole self = false ->
                   exists line,
                     console sys'
                     = (console sys ++ [(Spec.stream_of_level l, line)])%list)).
  { intros l m f.
    destruct (ts_log_effect env self l m f sys)
      as (ev & sys' & E & -> & Hw & Hm & Hu).
    eexists _, sys'. split; [exact E|]. repeat split; auto. }
  split.
  - destruct c as [l m f|m f|m f|m f|[m st|t] f];
      cbn [TS.perform Frame.level_of_call Frame.message_of_call];
      unfold TS.debug, TS.info, TS.warn, TS.error; apply H.
  - destruct c as [l m f|m f|m f|m f|[m st|t] f];
      cbn [JS.perform Frame.level_of_call Frame.message_of_call];
      unfold JS.debug, JS.info, JS.warn, JS.error;
      rewrite js_log_is_ts_log; apply H.
Qed.

(** [api_call_effect] on a muted [warn] and an unmuted [debug]. *)
Lemma api_call_effect_witness :
  (exists ev,
      TS.perform Demo.env (CallWarn "disk low" VUndefined)
        (Demo.instance true) Demo.quiet
      = Normal (with_queue (Demo.instance true)
                  (PQueue.add ev (queue (Demo.instance true))), Demo.quiet)
      /\ ev_level ev = "warn")
  /\ (exists ev sys',
         JS.perform Demo.env (CallDebug "tick" VUndefined)
           (Demo.instance false) Demo.quiet
         = Normal (with_queue (Demo.instance false)
                     (PQueue.add ev (queue (Demo.instance false))), sys')
         /\ exists line, console sys' = [(Info, line)]).
Proof.
  split.
  - destruct (api_call_effect Demo.env (CallWarn "disk low" VUndefined)
                (Demo.instance true) Demo.quiet)
      as [(ev & sys' & E & Hl & _ & _ & _ & _ & _ & _ & Hm & _) _].
    exists ev. rewrite <- (Hm eq_refl) at 2. now split.
  - destruct (api_call_effect Demo.env (CallDebug "tick" VUndefined)
                (Demo.instance false) Demo.quiet)
      as [_ (ev & sys' & E & _ & _ & _ & _ & _ & _ & _ & _ & Hu)].
    exists ev, sys'. split; [exact E|]. exact (Hu eq_refl).
Defined.

(** X5: the default level recorded at construction is never read again:
    on two instances that differ only in it, every operation of either
    copy builds the same event, writes the same console and wire, and
    leaves queues with the same tasks.  No level is filtered out. *)
Theorem default_level_never_read env (c : api_call) self lv sys :
  (exists ev sys',
      TS.perform env c self sys
      = Normal (with_queue self (PQueue.add ev (queue self)), sys')
      /\ TS.perform env c (Frame.with_level lv self) sys
         = Normal (with_queue (Frame.with_level lv self)
                     (PQueue.add ev (queue self)), sys'))
  /\ (exists ev sys',
         JS.perform env c self sys
         = Normal (with_queue self (PQueue.add ev (queue self)), sys')
         /\ JS.perform env c (Frame.with_level lv self) sys
            = Normal (with_queue (Frame.with_level lv self)
                        (PQueue.add ev (queue self)), sys')).
Proof.
  assert (H : forall l m f,
             exists ev sys',
               TS.log env self l m f sys
               = Normal (with_queue self (PQueue.add ev (queue self)), sys')
               /\ TS.log env (Frame.with_level lv self) l m f sys
                  = Normal (with_queue (Frame.with_level lv self)
                              (PQueue.add ev (queue self)), sys')).
  { intros l m f. unfold TS.log.
    set (ev := match location env with Some _ => _ | None => _ end).
    change (tags (Frame.with_level lv self)) with (tags self).
    fold ev.
    change (muteConsole (with_queue (Frame.with_level lv self)
                           (PQueue.add ev (queue (Frame.with_level lv self)))))
      with (muteConsole self).
    change (muteConsole (with_queue self (PQueue.add ev (queue self))))
      with (muteConsole self).
    destruct (muteConsole self); [eexists ev, _; split; reflexivity|].
    destruct (String.eqb l "error");
      [|destruct (String.eqb l "warn")];
      eexists ev, _; split; reflexivity. }
  split.
  - destruct c as [l m f|m f|m f|m f|[m st|t] f]; cbn [TS.perform];
      unfold TS.debug, TS.info, TS.warn, TS.error; apply H.
  - destruct c as [l m f|m f|m f|m f|[m st|t] f]; cbn [JS.perform];
      unfold JS.debug, JS.info, JS.warn, JS.error;
      rewrite js_log_is_ts_log; apply H.
Qed.

(** ** Muting and the delivery warning *)

Lemma send_with_retries_console net cfg req budget n sys :
  console (snd (Axios.send_with_retries net cfg req budget n sys))
  = console sys.
Proof.
  revert n sys. induction budget as [|b IH]; intros n sys; simpl.
  - destruct (Axios.attempt net req n); reflexivity.
  - destruct (Axios.attempt net req n); [reflexivity|].
    rewrite IH. reflexivity.
Qed.

Lemma prefix_app (p s : string) : String.prefix p (p ++ s) = true.
Proof.
  induction p as [|c p IH]; simpl; [now destruct s|].
  destruct (ascii_dec c c) as [_|Hne]; [exact IH|contradiction].
Qed.

(** The console after [_sendEvent]: as before, or one delivery warning
    longer. *)
Lemma ts_sendEvent_console net self event sys :
  exists new,
    console (snd (TS._sendEvent net self event sys))
    = (console sys ++ new)%list
    /\ forallb Frame.is_delivery_warning new = true
    /\ (List.length new <= 1)%nat.
Proof.
  pose proof (ts_sendEvent_settles net self event sys) as H.
  pose proof (send_with_retries_console net (Axios.retry (client self))
                (Spec.post_of self event)
                (Axios.retry_budget (Axios.retries (Axios.retry (client self))))
                0 sys) as Hc.
  fold (Axios.call net (client self) (Spec.post_of self event) sys) in Hc.
  destruct (Axios.call net (client self) (Spec.post_of self event) sys)
    as [[code|e] sys1]; rewrite H; cbn [snd] in *.
  - exists []. rewrite app_nil_r. repeat split; auto.
  - eexists [_]. unfold console_write. cbn [console]. rewrite Hc.
    split; [reflexivity|]. split; [|auto].
    cbn [forallb Frame.is_delivery_warning fst snd].
    now rewrite prefix_app.
Qed.

Section MutedSession.

Variable sendEvent :
  Network -> Instance -> Event -> Sys -> settled (option Z) * Sys.
Variable perform :
  Env -> api_call -> Instance -> Sys -> completion (Instance * Sys).

Hypothesis sendEvent_console : forall net self event sys,
  exists new,
    console (snd (sendEvent net self event sys)) = (console sys ++ new)%list
    /\ forallb Frame.is_delivery_warning new = true
    /\ (List.length new <= 1)%nat.
Hypothesis perform_muted : forall env c self sys,
  muteConsole self = true ->
  exists ev,
    perform env c self sys
    = Normal (with_queue self (PQueue.add ev (queue self)), sys).

Lemma muted_run (steps : list Session.step) (st : Session.state) :
  muteConsole (Session.self st) = true ->
  exists st' new,
    Session.run sendEvent perform steps st = Normal st'
    /\ muteConsole (Session.self st') = true
    /\ console (Session.sys st')
       = (console (Session.sys st) ++ new)%list
    /\ forallb Frame.is_delivery_warning new = true
    /\ (List.length new <= Frame.count_dispatch steps)%nat.
Proof.
  revert st.
  induction steps as [|s r IH]; intros st Hm; cbn [Session.run].
  - exists st, []. rewrite app_nil_r. repeat split; auto.
  - destruct s as [env c|net]; cbn [Session.run_step Frame.count_dispatch].
    + destruct (perform_muted env c (Session.self st) (Session.sys st) Hm)
        as [ev ->].
      destruct (IH {| Session.self :=
                        with_queue (Session.self st)
                          (PQueue.add ev (queue (Session.self st)));
                      Session.sys := Session.sys st;
                      Session.outcomes := Session.outcomes st |} Hm)
        as (st' & new & E & Hm' & Hc & Hall & Hlen).
      exists st', new. auto.
    + destruct (PQueue.pending (queue (Session.self st))) as [|task rest].
      * destruct (IH st Hm) as (st' & new & E & Hm' & Hc & Hall & Hlen).
        exists st', new. repeat split; auto.
      * destruct (sendEvent_console net (Session.self st) task
                    (Session.sys st)) as (new1 & Hc1 & Hall1 & Hlen1).
        destruct (sendEvent net (Session.self st) task (Session.sys st))
          as [o sys1]. cbn [snd] in Hc1.
        match goal with
        | |- context [Session.run sendEvent perform r ?st1] =>
            destruct (IH st1 Hm) as (st' & new & E & Hm' & Hc & Hall & Hlen)
        end.
        cbn [Session.sys] in Hc.
        exists st', (new1 ++ new)%list. split; [exact E|].
        split; [exact Hm'|]. split; [now rewrite Hc, Hc1, app_assoc|].
        split; [now rewrite forallb_app, Hall1, Hall|].
        rewrite length_app. lia.
Qed.

End MutedSession.

(** X6: muting silences the echo of the calls, not the warning of a
    failed delivery.  On a muted instance, whatever the program calls and
    however the network behaves, the console receives nothing but
    delivery warnings ("Could not send message to Logstash - [...]" on
    the warning stream), at most one per task that ran; and a task whose
    client call fails does write its warning, muted or not. *)
Theorem mute_spares_delivery_warning self sys :
  muteConsole self = true ->
  (forall steps,
      exists st' new,
        Session.run TS._sendEvent TS.perform steps
          {| Session.self := self; Session.sys := sys;
             Session.outcomes := [] |}
        = Normal st'
        /\ console (Session.sys st') = (console sys ++ new)%list
        /\ forallb Frame.is_delivery_warning new = true
        /\ (List.length new <= Frame.count_dispatch steps)%nat)
  /\ (forall steps,
         exists st' new,
           Session.run JS._sendEvent JS.perform steps
             {| Session.self := self; Session.sys := sys;
                Session.outcomes := [] |}
           = Normal st'
           /\ console (Session.sys st') = (console sys ++ new)%list
           /\ forallb Frame.is_delivery_warning new = true
           /\ (List.length new <= Frame.count_dispatch steps)%nat)
  /\ (forall net event,
         match Axios.call net (client self) (Spec.post_of self event) sys with
         | (Resolved _, sys1) =>
             console (snd (TS._sendEvent net self event sys)) = console sys
         | (Rejected e, sys1) =>
             console (snd (TS._sendEvent net self event sys))
             = (console sys
                ++ [(Warn, ("Could not send message to Logstash - ["
                            ++ err_message e ++ "]")%string)])%list
         end).
Proof.
  intros Hm.
  assert (Hts : forall env c self0 sys0,
             muteConsole self0 = true ->
             exists ev,
               TS.perform env c self0 sys0
               = Normal (with_queue self0 (PQueue.add ev (queue self0)), sys0)).
  { intros env c self0 sys0 H0.
    destruct (perform_adds_task env c self0 sys0)
      as [(ev & sys' & E & _ & _ & _ & Hmu) _].
    exists ev. now rewrite (Hmu H0) in E. }
  assert (Hjs : forall env c self0 sys0,
             muteConsole self0 = true ->
             exists ev,
               JS.perform env c self0 sys0
               = Normal (with_queue self0 (PQueue.add ev (queue self0)), sys0)).
  { intros env c self0 sys0 H0.
    destruct (perform_adds_task env c self0 sys0)
      as [_ (ev & sys' & E & _ & _ & _ & Hmu)].
    exists ev. now rewrite (Hmu H0) in E. }
  split; [|split].
  - intros steps.
    destruct (muted_run TS._sendEvent TS.perform ts_sendEvent_console Hts
                steps {| Session.self := self; Session.sys := sys;
                         Session.outcomes := [] |} Hm)
      as (st' & new & E & _ & Hc & Hall & Hlen).
    exists st', new. auto.
  - intros steps.
    destruct (muted_run JS._sendEvent JS.perform ts_sendEvent_console Hjs
                steps {| Session.self := self; Session.sys := sys;
                         Session.outcomes := [] |} Hm)
      as (st' & new & E & _ & Hc & Hall & Hlen).
    exists st', new. auto.
  - intros net event.
    pose proof (ts_sendEvent_settles net self event sys) as H.
    pose proof (send_with_retries_console net (Axios.retry (client self))
                  (Spec.post_of self event)
                  (Axios.retry_budget
                     (Axios.retries (Axios.retry (client self))))
                  0 sys) as Hc.
    fold (Axios.call net (client self) (Spec.post_of self event) sys) in Hc.
    destruct (Axios.call net (client self) (Spec.post_of self event) sys)
      as [[code|e] sys1]; rewrite H; cbn [snd] in *.
    + exact Hc.
    + unfold console_write. cbn [console]. now rewrite Hc.
Qed.

(** [mute_spares_delivery_warning] on a muted instance while the network
    is down: the logged error leaves no line, its delivery one warning. *)
Lemma mute_spares_delivery_warning_witness :
  exists st',
    Session.run TS._sendEvent TS.perform
      [Session.Call Demo.env (CallError Demo.boom VUndefined);
       Session.Dispatch Demo.down]
      {| Session.self := Demo.instance true; Session.sys := Demo.quiet;
         Session.outcomes := [] |}
    = Normal st'
    /\ console (Session.sys st')
       = [(Warn, "Could not send message to Logstash - [connect ECONNREFUSED]")].
Proof.
  destruct (mute_spares_delivery_warning (Demo.instance true) Demo.quiet
              eq_refl) as [H _].
  destruct (H [Session.Call Demo.env (CallError Demo.boom VUndefined);
               Session.Dispatch Demo.down])
    as (st' & new & E & _).
  exists st'. split; [exact E|].
  revert E. vm_compute. intros E. injection E as <-. reflexivity.
Defined.

(** ** The echo of [error] *)

Lemma obj_has_set_keeps (k k' : string) (v : value) (o : object) :
  obj_has k o = true -> obj_has k (obj_set k' v o) = true.
Proof.
  unfold obj_has. intros H.
  destruct (String.eqb k k') eqn:E.
  - apply String.eqb_eq in E; subst. now rewrite obj_get_set_same.
  - apply String.eqb_neq in E. now rewrite obj_get_set_other.
Qed.

Lemma obj_has_fold_keeps (k : string) (l target : object) :
  obj_has k target = true ->
  obj_has k (fold_left (fun acc kv => obj_set (fst kv) (snd kv) acc) l target)
  = true.
Proof.
  revert target. induction l as [|[k1 v1] r IH]; intros target H; simpl;
    [exact H|].
  apply IH. now apply obj_has_set_keeps.
Qed.

(** Both merges always have a "stack" key. *)
Lemma merge_stack_has_stack (fields : value) (stack : string) :
  obj_has "stack" (TS.merge_stack fields stack) = true
  /\ obj_has "stack" (JS.merge_stack fields stack) = true.
Proof.
  split.
  - unfold TS.merge_stack, obj_has. now rewrite obj_get_set_same.
  - unfold JS.merge_stack, Object_assign, copy_properties.
    now apply obj_has_fold_keeps.
Qed.

(** X7: with the console on, [error] called with an Error object always
    echoes the merged fields, whatever [fields] is (left out, [null], a
    number, an object): the one line goes to the error stream and is the
    error's message followed by " - " and the JSON text of an object that
    has a "stack" key.  Called with a plain string and no fields, it
    echoes the bare string. *)
Theorem error_object_echoes_stack env self message stack fields sys :
  muteConsole self = false ->
  (exists self' j,
      obj_has "stack" (TS.merge_stack fields stack) = true
      /\ JSON.stringify (VObj (TS.merge_stack fields stack)) = Some j
      /\ TS.error env self (ErrorObject message stack) fields sys
         = Normal (self', console_write Error (message ++ " - " ++ j) sys))
  /\ (exists self' j,
         obj_has "stack" (JS.merge_stack fields stack) = true
         /\ JSON.stringify (VObj (JS.merge_stack fields stack)) = Some j
         /\ JS.error env self (ErrorObject message stack) fields sys
            = Normal (self', console_write Error (message ++ " - " ++ j) sys))
  /\ (exists self',
         TS.error env self (PlainMessage message) VUndefined sys
         = Normal (self', console_write Error message sys))
  /\ (exists self',
         JS.error env self (PlainMessage message) VUndefined sys
         = Normal (self', console_write Error message sys)).
Proof.
  intros Hm.
  destruct (merge_stack_has_stack fields stack) as [Hts Hjs].
  assert (H : forall o,
             exists self' j,
               JSON.stringify (VObj o) = Some j
               /\ TS.log env self "error" message (VObj o) sys
                  = Normal (self',
                            console_write Error (message ++ " - " ++ j) sys)).
  { intros o0. destruct (stringify_object o0) as [j Hj].
    destruct (ts_log_unmuted env self "error" message (VObj o0) sys Hm)
      as [self' E].
    exists self', j. split; [exact Hj|]. rewrite E.
    cbn [truthy]. rewrite Hj. reflexivity. }
  assert (Hplain : exists self',
             TS.log env self "error" message VUndefined sys
             = Normal (self', console_write Error message sys)).
  { destruct (ts_log_unmuted env self "error" message VUndefined sys Hm)
      as [self' E].
    exists self'. rewrite E. cbn [truthy]. now rewrite string_app_empty_r. }
  split; [|split; [|split]].
  - destruct (H (TS.merge_stack fields stack)) as (self' & j & Hj & E).
    exists self', j. auto.
  - destruct (H (JS.merge_stack fields stack)) as (self' & j & Hj & E).
    exists self', j. rewrite <- js_log_is_ts_log in E. auto.
  - exact Hplain.
  - unfold JS.error. rewrite js_log_is_ts_log. exact Hplain.
Qed.

(** [error_object_echoes_stack] on [error(new Error("boom"))], no fields
    given. *)
Lemma error_object_echoes_stack_witness :
  exists self',
    TS.error Demo.env (Demo.instance false) Demo.boom VUndefined Demo.quiet
    = Normal (self',
              console_write Error
                ("boom - {" ++ JSON.dquote ++ "stack" ++ JSON.dquote ++ ":"
                 ++ JSON.dquote ++ "Error: boom at main.js:1:1" ++ JSON.dquote
                 ++ "}") Demo.quiet).
Proof.
  destruct (error_object_echoes_stack Demo.env (Demo.instance false) "boom"
              "Error: boom at main.js:1:1" VUndefined Demo.quiet eq_refl)
    as [(self' & j & _ & Hj & E) _].
  exists self'. vm_compute in Hj. injection Hj as <-. exact E.
Defined.

(** ** The merged fields form an object *)

Lemma map_fst_obj_replace (k : string) (v : value) (o : object) :
  map fst (obj_replace k v o) = map fst o.
Proof.
  induction o as [|[k1 v1] r IH]; simpl; [reflexivity|].
  destruct (String.eqb k1 k) eqn:E; simpl.
  - apply String.eqb_eq in E. now subst.
  - now rewrite IH.
Qed.

Lemma in_keys_obj_insert_index (x : string) (n : N) (k : string) (v : value)
      (o : object) :
  In x (map fst (obj_insert_index n k v o)) -> x = k \/ In x (map fst o).
Proof.
  induction o as [|[k1 v1] r IH]; simpl.
  - intros [<-|[]]. now left.
  - destruct (array_index k1) as [n1|]; [destruct (n1 <? n)%N|]; simpl.
    + intros [<-|H]; [right; now left|].
      destruct (IH H) as [->|Hin]; [now left|right; now right].
    + intros [<-|H]; [now left|now right].
    + intros [<-|H]; [now left|now right].
Qed.

Lemma NoDup_obj_insert_index (n : N) (k : string) (v : value) (o : object) :
  ~ In k (map fst o) -> NoDup (map fst o) ->
  NoDup (map fst (obj_insert_index n k v o)).
Proof.
  induction o as [|[k1 v1] r IH]; simpl; intros Hk Hnd.
  - constructor; [tauto|constructor].
  - inversion Hnd as [|? ? Hk1 Hr]; subst.
    assert (Hnew : NoDup (k :: k1 :: map fst r))
      by (constructor; [simpl; tauto|exact Hnd]).
    destruct (array_index k1) as [n1|]; [destruct (n1 <? n)%N|]; simpl;
      try exact Hnew.
    constructor.
    + intros Hin. apply in_keys_obj_insert_index in Hin as [->|Hin]; tauto.
    + apply IH; tauto.
Qed.

(** A write keeps the keys of an object distinct. *)
Lemma NoDup_obj_set (k : string) (v : value) (o : object) :
  NoDup (map fst o) -> NoDup (map fst (obj_set k v o)).
Proof.
  intros Hnd. unfold obj_set. destruct (obj_has k o) eqn:Hhas.
  - now rewrite map_fst_obj_replace.
  - apply obj_has_false_not_in in Hhas.
    destruct (array_index k) as [n|].
    + now apply NoDup_obj_insert_index.
    + rewrite map_app. simpl.
      apply NoDup_app; [exact Hnd|constructor; [tauto|constructor]|].
      intros x Hx [<-|[]]. contradiction.
Qed.

Lemma NoDup_fold_set (l target : object) :
  NoDup (map fst target) ->
  NoDup (map fst (fold_left (fun acc kv => obj_set (fst kv) (snd kv) acc)
                            l target)).
Proof.
  revert target. induction l as [|[k1 v1] r IH]; intros target H; simpl;
    [exact H|].
  apply IH. now apply NoDup_obj_set.
Qed.

Lemma obj_has_in_keys (k : string) (o : object) :
  obj_has k o = true -> In k (map fst o).
Proof.
  unfold obj_has. induction o as [|[k1 v1] r IH]; simpl; [discriminate|].
  destruct (String.eqb k1 k) eqn:E.
  - apply String.eqb_eq in E. now left.
  - intros H. right. now apply IH.
Qed.

(** X8: whatever is passed as [fields] to [error] together with an Error
    object (nothing, a primitive, a string, an array, an object), the
    merged fields of either copy form an object: no key occurs twice,
    and "stack" is one of the keys, so the event carries exactly one
    "stack" entry. *)
Theorem merged_fields_form_object (fields : value) (stack : string) :
  NoDup (map fst (TS.merge_stack fields stack))
  /\ In "stack" (map fst (TS.merge_stack fields stack))
  /\ NoDup (map fst (JS.merge_stack fields stack))
  /\ In "stack" (map fst (JS.merge_stack fields stack)).
Proof.
  destruct (merge_stack_has_stack fields stack) as [Hts Hjs].
  split; [|split; [|split]].
  - unfold TS.merge_stack, copy_properties.
    apply NoDup_obj_set, NoDup_fold_set. constructor.
  - now apply obj_has_in_keys.
  - unfold JS.merge_stack, Object_assign, copy_properties.
    apply NoDup_fold_set. simpl. constructor; [tauto|constructor].
  - now apply obj_has_in_keys.
Qed.

(** ** Delivery: recovery, and what goes on the wire *)

Local Open Scope nat_scope.

(** What the constructor fixes about deliveries. *)
Lemma ts_constructed_wiring u tg lv o self :
  TS.Logstash ThisNew (Some u) tg lv (Some o) = Normal self ->
  Axios.retry_budget (Axios.retries (Axios.retry (client self))) = 10
  /\ (forall n, Axios.cfg_retryDelay (Axios.retry (client self)) n
                = retryDelay self).
Proof.
  unfold TS.Logstash. destruct (String.eqb u ""); [discriminate|].
  intros H. injection H as <-. split; reflexivity.
Qed.

(** X9: with retries as modelled for the HTTP client, a delivery on a
    constructed instance recovers from up to ten failures: when the first
    [n <= 10] attempts fail and the next one succeeds, the event is
    posted exactly [n + 1] times, the promise fulfils with the response,
    and nothing is written on the console.  When the first eleven
    attempts fail, the delivery is given up after the eleventh, whatever
    a twelfth would have met. *)
Theorem delivery_recovers_within_budget u tg lv o self net event sys n code :
  TS.Logstash ThisNew (Some u) tg lv (Some o) = Normal self ->
  (forall i, i < n ->
     exists e, Axios.attempt net (Spec.post_of self event) i = Rejected e) ->
  (n <= 10 ->
   Axios.attempt net (Spec.post_of self event) n = Resolved code ->
   exists sys',
     TS._sendEvent net self event sys = (Resolved (Some code), sys')
     /\ wire sys'
        = (wire sys
           ++ Spec.retry_trace (Spec.post_of self event) (retryDelay self) n)%list
     /\ Spec.count_sent
          (Spec.retry_trace (Spec.post_of self event) (retryDelay self) n)
        = n + 1
     /\ console sys' = console sys)
  /\ (10 < n ->
      exists sys',
        TS._sendEvent net self event sys = (Resolved None, sys')
        /\ wire sys'
           = (wire sys
              ++ Spec.retry_trace (Spec.post_of self event) (retryDelay self)
                   10)%list
        /\ exists line, console sys' = (console sys ++ [(Warn, line)])%list).
Proof.
  intros Hnew Hfail.
  destruct (ts_constructed_wiring u tg lv o self Hnew) as [Hbud Hdel].
  pose proof (ts_sendEvent_settles net self event sys) as Hsend.
  unfold Axios.call in Hsend. rewrite Hbud in Hsend.
  destruct (send_with_retries_trace net (Axios.retry (client self))
              (Spec.post_of self event) (retryDelay self) Hdel 10 0 sys)
    as (k & Hk & Hw & Hc & Hkfail & Hout).
  destruct (Axios.send_with_retries net (Axios.retry (client self))
              (Spec.post_of self event) 10 0 sys)
    as [[c|e] sys1]; cbn [fst snd] in Hw, Hc, Hout, Hsend;
    cbn [Nat.add] in Hout, Hkfail.
  - (* the client succeeded at attempt k *)
    assert (Hkn : k = n \/ k < n \/ n < k) by lia.
    split.
    + intros Hn Hok. destruct Hkn as [->|[Hlt|Hgt]].
      * exists sys1. rewrite Hout in Hok. injection Hok as ->.
        split; [exact Hsend|]. split; [exact Hw|].
        split; [apply count_sent_retry_trace|exact Hc].
      * destruct (Hfail k Hlt) as [e He]. congruence.
      * destruct (Hkfail n Hgt) as [e He]. congruence.
    + intros Hn. destruct (Hfail k) as [e He]; [lia|]. congruence.
  - (* the client gave up: k = 10 *)
    destruct Hout as [-> He].
    split.
    + intros Hn Hok.
      assert (Hcase : n = 10 \/ n < 10) by lia.
      destruct Hcase as [->|Hlt]; [congruence|].
      destruct (Hkfail n Hlt) as [e' He']. congruence.
    + intros Hn. eexists. split; [exact Hsend|].
      split; [exact Hw|]. eexists. unfold console_write. cbn [console].
      rewrite Hc. reflexivity.
Qed.

(** [delivery_recovers_within_budget] on a network that drops two
    attempts: three posts, the response 200, a silent console. *)
Lemma delivery_recovers_within_budget_witness :
  exists sys',
    TS._sendEvent Demo.flaky (Demo.instance false) Demo.event Demo.quiet
    = (Resolved (Some 200%Z), sys')
    /\ Spec.count_sent (wire sys') = 3
    /\ console sys' = [].
Proof.
  destruct (delivery_recovers_within_budget Demo.endpoint (Some ["app"]) None
              (Demo.options VUndefined) (Demo.instance false) Demo.flaky
              Demo.event Demo.quiet 2 200%Z eq_refl) as [H _].
  - intros [|[|i]] Hi; [eexists; reflexivity|eexists; reflexivity|lia].
  - destruct H as (sys' & E & Hw & Hn & Hc); [lia|reflexivity|].
    exists sys'. split; [exact E|]. split; [now rewrite Hw|exact Hc].
Defined.

(** Everything the retry loop puts on the wire: the request it was
    given, first of all and then after every wait. *)
Lemma send_with_retries_wire net cfg req budget n sys :
  exists new,
    wire (snd (Axios.send_with_retries net cfg req budget n sys))
    = (wire sys ++ Sent req :: new)%list
    /\ (forall r, In (Sent r) new -> r = req)
    /\ (Spec.count_sent new <= budget).
Proof.
  revert n sys. induction budget as [|b IH]; intros n sys; simpl.
  - exists []. destruct (Axios.attempt net req n); simpl;
      repeat split; auto; intros r [].
  - destruct (Axios.attempt net req n).
    + exists []. simpl. repeat split; auto; [intros r []|lia].
    + destruct (IH (S n) (wire_log (Waited (Axios.cfg_retryDelay cfg (S n)))
                            (wire_log (Sent req) sys)))
        as (new & Hw & Hin & Hcnt).
      exists (Waited (Axios.cfg_retryDelay cfg (S n)) :: Sent req :: new).
      rewrite Hw. simpl. rewrite <- !app_assoc. simpl.
      split; [reflexivity|]. split; [|lia].
      intros r [H|[H|H]]; [discriminate|congruence|now apply Hin].
Qed.

(** X10: a call of [_sendEvent] (in either copy, on any instance and
    network) always puts the request on the wire at least once, and
    every request it sends is the same one: a POST to the instance's URL
    with the JSON content type and the event it was given as data.  It
    never sends more than one request beyond the retries it was
    configured with. *)
Theorem sendEvent_posts_only_the_event net self event sys :
  exists new,
    wire (snd (TS._sendEvent net self event sys))
    = (wire sys ++ Sent (Spec.post_of self event) :: new)%list
    /\ JS._sendEvent net self event sys = TS._sendEvent net self event sys
    /\ (forall r, In (Sent r) new -> r = Spec.post_of self event)
    /\ Spec.count_sent new
       <= Axios.retry_budget (Axios.retries (Axios.retry (client self)))
    /\ req_url (Spec.post_of self event) = url self
    /\ req_method (Spec.post_of self event) = "POST"
    /\ req_headers (Spec.post_of self event)
       = [("Content-Type", "application/json")]
    /\ req_data (Spec.post_of self event) = event.
Proof.
  destruct (send_with_retries_wire net (Axios.retry (client self))
              (Spec.post_of self event)
              (Axios.retry_budget (Axios.retries (Axios.retry (client self))))
              0 sys) as (new & Hw & Hin & Hcnt).
  exists new.
  pose proof (ts_sendEvent_settles net self event sys) as H.
  unfold Axios.call in H.
  destruct (Axios.send_with_retries net (Axios.retry (client self))
              (Spec.post_of self event) _ 0 sys) as [[c|e] sys1];
    rewrite H; cbn [snd] in *; repeat split; auto.
Qed.

Local Close Scope nat_scope.

(** ** The shape of the timestamp *)

Module StampFacts.
Import JSDate.
Local Open Scope Z_scope.

Lemma length_app (a b : string) :
  String.length (a ++ b) = (String.length a + String.length b)%nat.
Proof. induction a as [|c a IH]; simpl; [reflexivity|now rewrite IH]. Qed.

Lemma length_pad (w : nat) (n : Z) : String.length (pad w n) = w.
Proof. induction w as [|w IH]; simpl; [reflexivity|now rewrite IH]. Qed.

(** The first of January never comes earlier in a later year. *)
Lemma DayFromYear_mono (y y' : Z) :
  y <= y' -> DayFromYear y <= DayFromYear y'.
Proof.
  unfold DayFromYear. intros H.
  Z.to_euclidean_division_equations. lia.
Qed.

(** A year has 365 days, and one more when it is a leap year. *)
Lemma DayFromYear_succ (y : Z) :
  DayFromYear (y + 1) = DayFromYear y + 365 + (if is_leap y then 1 else 0).
Proof.
  pose proof (DateFacts.march_first y).
  pose proof (DateFacts.january_first_next y). lia.
Qed.

(** The months fit in the year. *)
Lemma month_within_year (leap : bool) (m : Z) :
  1 <= m <= 12 ->
  0 <= days_before leap m
  /\ days_before leap m + days_in_month leap m
     <= 365 + (if leap then 1 else 0).
Proof.
  intros Hm.
  assert (Hcase : m = 1 \/ m = 2 \/ m = 3 \/ m = 4 \/ m = 5 \/ m = 6
                  \/ m = 7 \/ m = 8 \/ m = 9 \/ m = 10 \/ m = 11 \/ m = 12)
    by lia.
  repeat (destruct Hcase as [->|Hcase]; [destruct leap; cbv; split; congruence|]).
  subst. destruct leap; cbv; split; congruence.
Qed.

(** A day number inside the years 0 to 9999 belongs to such a year. *)
Lemma year_of_day_bounds (y m d day : Z) :
  1 <= m <= 12 ->
  1 <= d <= DaysInMonth y m ->
  MakeDay y m d = day ->
  -719528 <= day < 2932897 ->
  0 <= y <= 9999.
Proof.
  unfold MakeDay, days_before_month, DaysInMonth.
  intros Hm Hd Hday Hrange.
  destruct (month_within_year (is_leap y) m Hm) as [Hb0 Hb].
  pose proof (DayFromYear_succ y) as Hsucc.
  assert (E0 : DayFromYear 0 = -719528) by reflexivity.
  assert (E1 : DayFromYear 10000 = 2932897) by reflexivity.
  split.
  - destruct (Z_lt_le_dec y 0) as [Hneg|]; [|assumption].
    assert (Hmono : DayFromYear (y + 1) <= DayFromYear 0)
      by (apply DayFromYear_mono; lia).
    lia.
  - destruct (Z_lt_le_dec 9999 y) as [Hbig|]; [|assumption].
    assert (Hmono : DayFromYear 10000 <= DayFromYear y)
      by (apply DayFromYear_mono; lia).
    lia.
Qed.

Lemma day_of_four_digit_years (t : Z) :
  -62167219200000 <= t <= 253402300799999 ->
  -719528 <= Day t < 2932897.
Proof.
  intros Ht. unfold Day, msPerDay.
  Z.to_euclidean_division_equations. lia.
Qed.

(** A time of the years 0 to 9999 has a year in that range. *)
Lemma year_four_digits (t : Z) :
  -62167219200000 <= t <= 253402300799999 ->
  0 <= YearFromDay (Day t) <= 9999.
Proof.
  intros Ht.
  destruct (DateFacts.civil_of_day (Day t)) as (Hm & Hd & Hday & _).
  exact (year_of_day_bounds (YearFromDay (Day t)) (MonthFromDay (Day t))
           (DateFromDay (Day t)) (Day t) Hm Hd Hday
           (day_of_four_digit_years t Ht)).
Qed.

End StampFacts.



(** ** The JSON text of the fields stays on one line *)

Module JSONFacts.

Lemma control_free_app (a b : string) :
  Frame.control_free (a ++ b)
  = (Frame.control_free a && Frame.control_free b)%bool.
Proof.
  induction a as [|c a IH]; simpl; [reflexivity|].
  now rewrite IH, andb_assoc.
Qed.

Lemma control_free_quote_char (c : ascii) :
  Frame.control_free (JSON.quote_char c) = true.
Proof. destruct c as [[|] [|] [|] [|] [|] [|] [|] [|]]; reflexivity. Qed.

Lemma control_free_quote (s : string) : Frame.control_free (JSON.quote s) = true.
Proof.
  unfold JSON.quote. rewrite !control_free_app.
  assert (H : Frame.control_free (JSON.quote_body s) = true).
  { induction s as [|c s IH]; simpl; [reflexivity|].
    now rewrite control_free_app, control_free_quote_char, IH. }
  rewrite H. reflexivity.
Qed.

Lemma control_free_uint (u : Decimal.uint) :
  Frame.control_free (NilEmpty.string_of_uint u) = true.
Proof. induction u; simpl; auto. Qed.

Lemma control_free_dec_of_Z (z : Z) : Frame.control_free (dec_of_Z z) = true.
Proof.
  unfold dec_of_Z, NilZero.string_of_int, NilZero.string_of_uint.
  destruct (Z.to_int z) as [u|u];
    destruct u; try reflexivity;
    try apply (control_free_uint (_ _));
    try (change (Frame.control_free (String "-" ?s))
           with (Frame.control_free s));
    simpl; try apply control_free_uint; auto.
Qed.

Lemma control_free_concat (sep : string) (l : list string) :
  Frame.control_free sep = true ->
  Forall (fun s => Frame.control_free s = true) l ->
  Frame.control_free (String.concat sep l) = true.
Proof.
  intros Hsep Hl. induction Hl as [|x r Hx Hr IH]; [reflexivity|].
  destruct r as [|y r']; [exact Hx|].
  change (String.concat sep (x :: y :: r'))
    with (x ++ sep ++ String.concat sep (y :: r')).
  now rewrite !control_free_app, Hx, Hsep, IH.
Qed.

(** No JSON text contains a control character. *)
Lemma serialize_control_free :
  forall (v : value) (j : string),
    JSON.serialize v = Some j -> Frame.control_free j = true.
Proof.
  fix IH 1. intros v j.
  destruct v as [| |[|]|z|s|l|o]; simpl; intros H;
    try discriminate; try (injection H as <-; reflexivity).
  - injection H as <-. apply control_free_dec_of_Z.
  - injection H as <-. apply control_free_quote.
  - injection H as <-. cbn [Frame.control_free]. rewrite andb_true_l.
    rewrite !control_free_app. rewrite control_free_concat; auto.
    induction l as [|x r IHl]; constructor; [|exact IHl].
    destruct (JSON.serialize x) as [s|] eqn:E; [|reflexivity].
    exact (IH x s E).
  - injection H as <-. cbn [Frame.control_free]. rewrite andb_true_l.
    rewrite !control_free_app. rewrite control_free_concat; auto.
    induction o as [|[k x] r IHo]; [constructor|].
    destruct (JSON.serialize x) as [s|] eqn:E; [|exact IHo].
    constructor; [|exact IHo].
    change (Frame.control_free (JSON.quote k ++ ":" ++ s) = true).
    rewrite !control_free_app, control_free_quote, (IH x s E). reflexivity.
Qed.

Lemma truthy_has_json (v : value) :
  truthy v = true -> exists j, JSON.stringify v = Some j.
Proof.
  unfold JSON.stringify.
  destruct v as [| |[|]|z|s|l|o]; simpl; intros H;
    try discriminate; eauto.
Qed.

End JSONFacts.

(** X12: whatever fields are logged, the part of the local line that
    follows the message is " - " and a JSON text without any control
    character: line breaks, tabs and the like inside field values are
    written escaped, so the fields cannot break the line.  When the
    message has no control character either, the whole line has none.
    This holds at every level, in both copies. *)
Theorem fields_cannot_break_the_line env self level message fields sys :
  muteConsole self = false ->
  truthy fields = true ->
  exists self' j,
    JSON.stringify fields = Some j
    /\ Frame.control_free j = true
    /\ TS.log env self level message fields sys
       = Normal (self',
                 console_write (Spec.stream_of_level level)
                   (message ++ " - " ++ j) sys)
    /\ JS.log env self level message fields sys
       = Normal (self',
                 console_write (Spec.stream_of_level level)
                   (message ++ " - " ++ j) sys)
    /\ (Frame.control_free message = true ->
        Frame.control_free (message ++ " - " ++ j) = true).
Proof.
  intros Hm Ht.
  destruct (JSONFacts.truthy_has_json fields Ht) as [j Hj].
  destruct (ts_log_unmuted env self level message fields sys Hm) as [self' E].
  rewrite Ht, Hj in E. cbn [JSON.interpolate] in E.
  assert (Hcf : Frame.control_free j = true)
    by (apply (JSONFacts.serialize_control_free fields); exact Hj).
  exists self', j. repeat split; auto.
  intros Hmsg. now rewrite !JSONFacts.control_free_app, Hmsg, Hcf.
Qed.

(** [fields_cannot_break_the_line] on a field value with a line break. *)
Lemma fields_cannot_break_the_line_witness :
  exists self',
    TS.log Demo.env (Demo.instance false) "info" "note"
      (VObj [("text", VStr (String (ascii_of_N 10) "x"))]) Demo.quiet
    = Normal (self',
              console_write Info
                ("note - {" ++ JSON.dquote ++ "text" ++ JSON.dquote ++ ":"
                 ++ JSON.dquote ++ "\nx" ++ JSON.dquote ++ "}") Demo.quiet).
Proof.
  destruct (fields_cannot_break_the_line Demo.env (Demo.instance false) "info"
              "note" (VObj [("text", VStr (String (ascii_of_N 10) "x"))])
              Demo.quiet eq_refl eq_refl)
    as (self' & j & Hj & _ & E & _).
  exists self'. vm_compute in Hj. injection Hj as <-. exact E.
Defined.

(** ** The order of the keys of the merged fields *)

Lemma obj_get_app (k : string) (a b : object) :
  obj_get k (a ++ b)%list
  = match obj_get k a with Some v => Some v | None => obj_get k b end.
Proof.
  induction a as [|[k1 v1] r IH]; simpl; [reflexivity|].
  destruct (String.eqb k1 k); [reflexivity|exact IH].
Qed.

(** Copying named properties that the target lacks appends them. *)
Lemma fold_set_appends (l target : object) :
  distinct_keys l = true ->
  Frame.plain_keys l = true ->
  (forall k, obj_has k l = true -> obj_has k target = false) ->
  fold_left (fun acc kv => obj_set (fst kv) (snd kv) acc) l target
  = (target ++ l)%list.
Proof.
  revert target.
  induction l as [|[k1 v1] r IH]; intros target Hd Hp Hnew; simpl.
  - now rewrite app_nil_r.
  - cbn [distinct_keys] in Hd. apply andb_prop in Hd as [Hk1 Hd].
    cbn [Frame.plain_keys forallb fst] in Hp. apply andb_prop in Hp as [Hi Hp].
    assert (Hset : obj_set k1 v1 target = (target ++ [(k1, v1)])%list).
    { unfold obj_set. rewrite (Hnew k1).
      - destruct (array_index k1); [discriminate|reflexivity].
      - unfold obj_has. simpl. now rewrite String.eqb_refl. }
    rewrite Hset, IH; [now rewrite <- app_assoc|exact Hd|exact Hp|].
    intros k Hk. unfold obj_has. rewrite obj_get_app.
    assert (Hne : (k1 =? k)%string = false).
    { destruct (String.eqb k1 k) eqn:E; [|reflexivity].
      apply String.eqb_eq in E; subst.
      rewrite Hk in Hk1. discriminate. }
    assert (Ht : obj_has k target = false).
    { apply Hnew. unfold obj_has in *. simpl. now rewrite Hne. }
    unfold obj_has in Ht.
    destruct (obj_get k target); [discriminate|]. simpl. now rewrite Hne.
Qed.

(** X14: for an Error object and fields that are an object with
    distinct, non-index keys and no "stack" key, the TypeScript source
    puts the stack after the caller's entries and the JavaScript copy
    puts it before them; the entries themselves are kept in the caller's
    order and unchanged.  The two enqueued events therefore list the same
    entries in a different order, unless the fields are empty. *)
Theorem stack_position (o : object) (stack : string) :
  distinct_keys o = true ->
  Frame.plain_keys o = true ->
  obj_has "stack" o = false ->
  TS.merge_stack (VObj o) stack = (o ++ [("stack", VStr stack)])%list
  /\ JS.merge_stack (VObj o) stack = ("stack", VStr stack) :: o
  /\ (TS.merge_stack (VObj o) stack = JS.merge_stack (VObj o) stack
      <-> o = []).
Proof.
  intros Hd Hp Hs.
  assert (Hts : TS.merge_stack (VObj o) stack
                = (o ++ [("stack", VStr stack)])%list).
  { unfold TS.merge_stack, copy_properties. cbn [own_enumerable].
    rewrite (fold_set_appends o [] Hd Hp) by reflexivity.
    cbn [app]. unfold obj_set. rewrite Hs. reflexivity. }
  assert (Hjs : JS.merge_stack (VObj o) stack = ("stack", VStr stack) :: o).
  { unfold JS.merge_stack, Object_assign, copy_properties.
    cbn [own_enumerable].
    rewrite (fold_set_appends o [("stack", VStr stack)] Hd Hp);
      [reflexivity|].
    intros k Hk. unfold obj_has. cbn [obj_get].
    destruct (String.eqb "stack" k) eqn:E; [|reflexivity].
    apply String.eqb_eq in E; subst. rewrite Hk in Hs. discriminate. }
  split; [exact Hts|]. split; [exact Hjs|].
  rewrite Hts, Hjs. split.
  - destruct o as [|[k v] r]; [reflexivity|].
    intros H. cbn [app] in H. injection H as Hk _ _. subst k.
    unfold obj_has in Hs. simpl in Hs. discriminate.
  - intros ->. reflexivity.
Qed.

(** [stack_position] on the fields [{extra: 1, user: "ann"}]. *)
Lemma stack_position_witness :
  TS.merge_stack (VObj [("extra", VNum 1); ("user", VStr "ann")]) "S"
  = [("extra", VNum 1); ("user", VStr "ann"); ("stack", VStr "S")]
  /\ JS.merge_stack (VObj [("extra", VNum 1); ("user", VStr "ann")]) "S"
     = [("stack", VStr "S"); ("extra", VNum 1); ("user", VStr "ann")].
Proof.
  destruct (stack_position [("extra", VNum 1); ("user", VStr "ann")] "S"
              eq_refl eq_refl eq_refl) as (Hts & Hjs & _).
  split; [exact Hts|exact Hjs].
Defined.

(** ** Calls in a row *)

Section CallsInOrder.

Variable sendEvent :
  Network -> Instance -> Event -> Sys -> settled (option Z) * Sys.
Variable perform :
  Env -> api_call -> Instance -> Sys -> completion (Instance * Sys).

Hypothesis perform_adds : forall env c self sys,
  exists ev sys',
    perform env c self sys
    = Normal (with_queue self (PQueue.add ev (queue self)), sys')
    /\ ev_level ev = Frame.level_of_call c
    /\ ev_message ev = Frame.message_of_call c
    /\ wire sys' = wire sys.

Lemma calls_run (calls : list (Env * api_call)) (st : Session.state) :
  exists st',
    Session.run sendEvent perform
      (map (fun ec => Session.Call (fst ec) (snd ec)) calls) st
    = Normal st'
    /\ map ev_level (PQueue.pending (queue (Session.self st')))
       = (map ev_level (PQueue.pending (queue (Session.self st)))
          ++ map (fun ec => Frame.level_of_call (snd ec)) calls)%list
    /\ map ev_message (PQueue.pending (queue (Session.self st')))
       = (map ev_message (PQueue.pending (queue (Session.self st)))
          ++ map (fun ec => Frame.message_of_call (snd ec)) calls)%list
    /\ wire (Session.sys st') = wire (Session.sys st)
    /\ Session.outcomes st' = Session.outcomes st.
Proof.
  revert st.
  induction calls as [|[env c] r IH]; intros st; cbn [map Session.run].
  - exists st. rewrite !app_nil_r. auto.
  - cbn [Session.run_step fst snd].
    destruct (perform_adds env c (Session.self st) (Session.sys st))
      as (ev & sys' & -> & Hl & Hm & Hw).
    match goal with
    | |- context [Session.run sendEvent perform _ ?st1] =>
        destruct (IH st1) as (st' & E & Hls & Hms & Hws & Ho)
    end.
    exists st'. split; [exact E|].
    cbn [Session.self Session.sys Session.outcomes queue with_queue
         PQueue.pending PQueue.add] in Hls, Hms, Hws, Ho.
    rewrite Hls, Hms, Hws, Ho, !map_app. cbn [map].
    rewrite Hl, Hm, <- !app_assoc. auto.
Qed.

End CallsInOrder.

(** X13: calls made in a row, before the queue starts anything, leave
    one task each behind the tasks already waiting, in the order of the
    calls and with the level and message of each call; nothing goes out
    on the wire meanwhile.  This holds in both copies for any mix of
    [log], [debug], [info], [warn] and [error]. *)
Theorem calls_enqueue_in_order (calls : list (Env * api_call)) self sys :
  (exists st',
      Session.run TS._sendEvent TS.perform
        (map (fun ec => Session.Call (fst ec) (snd ec)) calls)
        {| Session.self := self; Session.sys := sys; Session.outcomes := [] |}
      = Normal st'
      /\ map ev_level (PQueue.pending (queue (Session.self st')))
         = (map ev_level (PQueue.pending (queue self))
            ++ map (fun ec => Frame.level_of_call (snd ec)) calls)%list
      /\ map ev_message (PQueue.pending (queue (Session.self st')))
         = (map ev_message (PQueue.pending (queue self))
            ++ map (fun ec => Frame.message_of_call (snd ec)) calls)%list
      /\ wire (Session.sys st') = wire sys)
  /\ (exists st',
         Session.run JS._sendEvent JS.perform
           (map (fun ec => Session.Call (fst ec) (snd ec)) calls)
           {| Session.self := self; Session.sys := sys;
              Session.outcomes := [] |}
         = Normal st'
         /\ map ev_level (PQueue.pending (queue (Session.self st')))
            = (map ev_level (PQueue.pending (queue self))
               ++ map (fun ec => Frame.level_of_call (snd ec)) calls)%list
         /\ map ev_message (PQueue.pending (queue (Session.self st')))
            = (map ev_message (PQueue.pending (queue self))
               ++ map (fun ec => Frame.message_of_call (snd ec)) calls)%list
         /\ wire (Session.sys st') = wire sys).
Proof.
  split.
  - destruct (calls_run TS._sendEvent TS.perform) with
      (calls := calls)
      (st := {| Session.self := self; Session.sys := sys;
                Session.outcomes := [] |})
      as (st' & E & Hl & Hm & Hw & _).
    + intros env c self0 sys0.
      destruct (perform_adds_task env c self0 sys0)
        as [(ev & sys' & E & Hl & Hm & Hw & _) _].
      exists ev, sys'. auto.
    + exists st'. auto.
  - destruct (calls_run JS._sendEvent JS.perform) with
      (calls := calls)
      (st := {| Session.self := self; Session.sys := sys;
                Session.outcomes := [] |})
      as (st' & E & Hl & Hm & Hw & _).
    + intros env c self0 sys0.
      destruct (perform_adds_task env c self0 sys0)
        as [_ (ev & sys' & E & Hl & Hm & Hw & _)].
      exists ev, sys'. auto.
    + exists st'. auto.
Qed.
